(** * Plasius hexagons: camera, projection and hex geometry

    A shallow embedding of the explorer core of [src/state/gameStateProvider.tsx]
    (camera pose, locomotion, perspective projection, draw queue) and of the
    tiling helpers of [src/game.tsx] ([axialToPixel], [hexPolygonPoints], ...).

    JavaScript numbers are read as real numbers, as the data model of the
    specification does ("all real-valued"): [+], [-], [*], [/] are the field
    operations of [R], [Math.sin], [Math.cos], [Math.tan], [Math.PI] are the
    functions and the constant of the Reals library, and the few built-ins
    that round ([%], [Math.round]) are written out with [Int_part].  The value
    [Number.POSITIVE_INFINITY] is the [None] of [option R] where the code
    uses it.  NaN has no counterpart; where a built-in can produce it from a
    string ([parseInt]) the result is an [option].

    The code computes with binary64 numbers, so only what rests on the
    expressions themselves and on comparisons of their values carries over
    from this reading to the code; an identity of real arithmetic
    (cancellation, associativity, [sin]/[cos] and [sqrt] identities) does
    not.  Where a statement of the specification fails for that reason, the
    function is written out a second time on binary64 numbers, in the
    module [Double], and evaluated there. *)

From Stdlib Require Import Reals Lra Lia ZArith List String Ascii.
From Stdlib Require Import Sorting.Sorted Sorting.Permutation.
From Stdlib Require Import HexadecimalString.
From Stdlib Require Floats.
From stdpp Require Import base decidable gmap sets strings.
Import ListNotations.

Local Open Scope R_scope.

(** ** Host built-ins over the reals *)

Module JS.

(** [Math.min(a, b)] and [Math.max(a, b)]. *)
Definition min (a b : R) : R := if Rle_dec a b then a else b.
Definition max (a b : R) : R := if Rle_dec a b then b else a.

(** [Math.floor(x)], and [Math.trunc]: the integer part towards zero. *)
Definition floor (x : R) : R := IZR (Int_part x).
Definition trunc (x : R) : Z :=
  if Rle_dec 0 x then Int_part x else (- Int_part (- x))%Z.

(** [n % d] for a divisor other than 0: the remainder [n - d * q] where
    [q] is [n / d] truncated towards zero, so the result has the sign of the
    dividend.  The only divisor in the code is [Math.PI * 2]. *)
Definition rem (n d : R) : R := n - d * IZR (trunc (n / d)).

(** [Math.hypot(a, b)]. *)
Definition hypot (a b : R) : R := sqrt (a * a + b * b).

(** [Math.round(x)]: the nearest integer, halves towards plus infinity. *)
Definition round (x : R) : R := IZR (Int_part (x + / 2)).

(** [a < b] where [b] may be [Number.POSITIVE_INFINITY] ([None]). *)
Definition ltInf (a : R) (b : option R) : bool :=
  match b with
  | None => true
  | Some b' => if Rlt_dec a b' then true else false
  end.

(** [String.prototype.replace("#", "")]: the first occurrence only. *)
Fixpoint removeFirstHash (s : string) : string :=
  match s with
  | EmptyString => EmptyString
  | String c rest =>
      if Ascii.eqb c "#" then rest else String c (removeFirstHash rest)
  end.

(** [s.slice(from, to)] for [0 <= from <= to]. *)
Definition slice (s : string) (from to : nat) : string :=
  substring from (to - from) s.

(** [s.padStart(2, "0")]. *)
Definition padStart2 (s : string) : string :=
  match String.length s with
  | O => "00"
  | S O => String "0" s
  | _ => s
  end.

(** [n.toString(16)] of a number that is a whole number from 0 on (the
    only use is after [Math.round] and a clamp to 0..255). *)
Definition toString16 (n : R) : string :=
  HexadecimalString.NilZero.string_of_uint (N.to_hex_uint (Z.to_N (Int_part n))).

(** [Array.prototype.sort(comparefn)]: the sort of ECMAScript is stable and
    puts [a] before [b] when [comparefn(a, b) < 0], after it when
    [comparefn(a, b) > 0].  Written as a stable insertion sort: each element
    goes in front of the first element of the sorted rest that it does not
    sort after. *)
Fixpoint sortInsert {A : Type} (comparefn : A -> A -> R) (a : A) (sorted : list A)
  : list A :=
  match sorted with
  | [] => [a]
  | b :: rest =>
      if Rlt_dec 0 (comparefn a b)
      then b :: sortInsert comparefn a rest
      else a :: b :: rest
  end.

Definition sort {A : Type} (comparefn : A -> A -> R) (items : list A) : list A :=
  fold_right (sortInsert comparefn) [] items.

End JS.

(** ** The arithmetic of the code: binary64 numbers *)

Module Double.
Import Floats.

(** [Math.PI]. *)
Definition PI : float := 0x1.921fb54442d18p+1%float.

(** [n % d] on binary64 numbers: NaN for a NaN operand, an infinite
    dividend or a zero divisor; the dividend itself when it is a zero or the
    divisor is infinite; otherwise the exact remainder of the truncated
    division, with the sign of the dividend.  Both operands are whole
    multiples of the smaller of their two units [2 ^ e], and so is the
    remainder, which is below the divisor and at most the dividend. *)
Definition rem (n d : float) : float :=
  match Prim2SF n, Prim2SF d with
  | S754_nan, _ => nan
  | _, S754_nan => nan
  | S754_infinity _, _ => nan
  | _, S754_zero _ => nan
  | _, S754_infinity _ => n
  | S754_zero _, _ => n
  | S754_finite sn mn en, S754_finite _ md ed =>
      let e := Z.min en ed in
      let a := (Z.pos mn * 2 ^ (en - e))%Z in
      let b := (Z.pos md * 2 ^ (ed - e))%Z in
      match (a mod b)%Z with
      | Z.pos r => SF2Prim (S754_finite sn r e)
      | _ => SF2Prim (S754_zero sn)
      end
  end.

(** [wrapAngle] as the code computes it. *)
Definition wrapAngle (value : float) : float :=
  let full := (PI * 2)%float in
  let wrapped := rem (rem value full + full)%float full in
  if (PI <? wrapped)%float then (wrapped - full)%float else wrapped.


(** Angles on which [wrapAngle] is evaluated below: small and large, of
    both signs, the two ends of the range, the smallest positive number. *)
Definition sampleAngles : list float :=
  [ 0; 0x1.47ae147ae147bp-2; 1; -1; 10; -10; 0x1.921fb54442d18p+1;
    -0x1.921fb54442d18p+1; 0x1.921fb54442d19p+1; -0x1.921fb54442d19p+1;
    0x1.921fb54442d18p+2; -0x1.921fb54442d18p+2; 0x1p-1074; -0x1p-1074;
    -0x1p-70; 0x1p+70; -0x1p+70; 0x1.fffffffffffffp+1023;
    -0x1.fffffffffffffp+1023 ]%float.

End Double.

(** Built-ins that produce or read digits; the development is parametric
    in them.  [parseInt s radix] is [None] where JavaScript gives NaN. *)
Class Host := {
  parseInt : string -> Z -> option Z;
  toFixed : R -> nat -> string
}.

(** ** Constants of [gameStateProvider.tsx] *)

Definition HEX_SIZE : R := 18.
Definition HEIGHT_SCALE : R := 26.
Definition HUMAN_EYE_HEIGHT : R := 1.72.
Definition WALK_SPEED : R := 20.
Definition FLY_SPEED : R := 32.
Definition VERTICAL_FLY_SPEED : R := 22.
Definition LOOK_SENSITIVITY : R := 0.0032.
Definition NEAR_PLANE : R := 0.5.
Definition FAR_PLANE : R := 1100.
Definition FOV_RAD : R := PI / 3.
Definition CAMERA_UPDATE_MS : R := 100.

(** ** Data model *)

Inductive ExplorerMode := walk | fly.

(** [TerrainCell] of the world generator: the attributes of one cell. *)
Module TerrainCell.
Record t := mk {
  height : R;
  heat : R;
  moisture : R;
  biome : Z;
  macroBiome : option Z;
  surface : option Z;
  feature : option Z
}.
End TerrainCell.

(** [HexMapTile]: [x], [y] is the planar position of the tile's centre. *)
Module HexMapTile.
Record t := mk {
  q : Z;
  r : Z;
  x : R;
  y : R;
  points : string;
  color : string;
  terrain : TerrainCell.t
}.
End HexMapTile.

Module CameraPose.
Record t := mk {
  x : R;
  y : R;
  z : R;
  yaw : R;
  pitch : R
}.
End CameraPose.

Module CameraHud.
Record t := mk {
  pose : CameraPose.t;
  ground : R
}.
End CameraHud.

(** The [{ x, z }] corners of [hexCorners] and the [{ x, y, z }] argument
    of [projectPoint]. *)
Module Corner.
Record t := mk { x : R; z : R }.
End Corner.

Module Point.
Record t := mk { x : R; y : R; z : R }.
End Point.

Module ProjectedPoint.
Record t := mk {
  x : R;
  y : R;
  depth : R
}.
End ProjectedPoint.

(** The calls recorded on a [Path2D] and on the 2D context of the canvas. *)
Inductive PathOp :=
| PathMoveTo (x y : R)
| PathLineTo (x y : R)
| PathClose.

Inductive Style :=
| StyleColor (color : string)
| StyleLinearGradient (x0 y0 x1 y1 : R) (stops : list (R * string)).

Inductive CanvasOp :=
| SetFillStyle (style : Style)
| FillRect (x y w h : R)
| Fill (path : list PathOp)
| SetLineWidth (w : R)
| SetStrokeStyle (style : Style)
| StrokePath (path : list PathOp)
| BeginPath
| MoveTo (x y : R)
| LineTo (x y : R)
| Stroke.

Module DrawItem.
Record t := mk {
  path : list PathOp;
  color : string;
  depth : R;
  highlighted : bool
}.
End DrawItem.

Module Canvas.
Record t := mk {
  clientWidth : R;
  clientHeight : R;
  width : R;
  height : R
}.
End Canvas.

(** [dragRef.current] and the fields of a pointer event that the handlers
    read. *)
Module Drag.
Record t := mk {
  active : bool;
  pointerId : Z;
  lastX : R;
  lastY : R
}.
End Drag.

Module PointerEvent.
Record t := mk {
  pointerId : Z;
  clientX : R;
  clientY : R
}.
End PointerEvent.

(** ** Geometry helpers *)

Definition clamp (value min max : R) : R := JS.min max (JS.max min value).

Definition wrapAngle (value : R) : R :=
  let full := PI * 2 in
  let wrapped := JS.rem (JS.rem value full + full) full in
  if Rgt_dec wrapped PI then wrapped - full else wrapped.

(** The body of the loop [for (let i = 0; i < 6; i += 1)] of [hexCorners]. *)
Definition hexCornersStep (centerX centerZ size : R) (points : list Corner.t) (i : nat)
  : list Corner.t :=
  let angle := (PI / 180) * (60 * INR i + 30) in
  points ++ [Corner.mk (centerX + size * cos angle) (centerZ + size * sin angle)].

Definition hexCorners (centerX centerZ size : R) : list Corner.t :=
  fold_left (hexCornersStep centerX centerZ size) (seq 0 6) [].

Section Tint.
Context `{Host}.

(** One channel of [tintHex]: scaled, rounded, clamped to 0..255, written
    with two hexadecimal digits; NaN goes through every step and prints as
    ["NaN"]. *)
Definition tintChannel (factor : R) (channel : option Z) : string :=
  match channel with
  | None => "NaN"
  | Some c => JS.padStart2 (JS.toString16 (clamp (JS.round (IZR c * factor)) 0 255))
  end.

Definition tintHex (hex : string) (amount : R) : string :=
  let safe := JS.removeFirstHash hex in
  let channels :=
    if Nat.eqb (String.length safe) 3
    then map (fun c => parseInt (String c (String c EmptyString)) 16)
             (list_ascii_of_string safe)
    else map (fun offset => parseInt (JS.slice safe offset (offset + 2)) 16)
             [0; 2; 4]%nat in
  let factor := clamp (1 + amount) 0.2 1.9 in
  let next := String.concat "" (map (tintChannel factor) channels) in
  String "#" next.

End Tint.

(** ** Ground sampler *)

(** The loop of [findNearestTileIndex] from [index] on, over the tiles not
    yet visited. *)
Fixpoint nearestLoop (tiles : list HexMapTile.t) (x z : R) (index : nat)
  (nearestIndex : nat) (nearestDistance : option R) : nat :=
  match tiles with
  | [] => nearestIndex
  | tile :: rest =>
      let dx := HexMapTile.x tile - x in
      let dz := HexMapTile.y tile - z in
      let distance := dx * dx + dz * dz in
      if JS.ltInf distance nearestDistance
      then nearestLoop rest x z (S index) index (Some distance)
      else nearestLoop rest x z (S index) nearestIndex nearestDistance
  end.

Definition findNearestTileIndex (tiles : list HexMapTile.t) (x z : R) : nat :=
  if Nat.eqb (length tiles) 0 then 0%nat
  else nearestLoop tiles x z 0 0 None.

Definition sampleGroundHeight (tiles : list HexMapTile.t) (x z : R) : R :=
  let index := findNearestTileIndex tiles x z in
  match tiles !! index with
  | None => 0
  | Some tile => TerrainCell.height (HexMapTile.terrain tile) * HEIGHT_SCALE
  end.

(** ** Camera pose *)

Definition initialCamera (tiles : list HexMapTile.t) : CameraPose.t :=
  if Nat.eqb (length tiles) 0
  then CameraPose.mk 0 HUMAN_EYE_HEIGHT 0 0 (-0.35)
  else
    let '(sumX, sumZ) :=
      fold_left (fun '(sumX, sumZ) tile =>
                   (sumX + HexMapTile.x tile, sumZ + HexMapTile.y tile))
                tiles (0, 0) in
    let x := sumX / INR (length tiles) in
    let z := sumZ / INR (length tiles) in
    let ground := sampleGroundHeight tiles x z in
    CameraPose.mk x (ground + HUMAN_EYE_HEIGHT) z (- PI * 0.12) (-0.38).

(** ** Perspective projector *)

Definition projectPoint (point : Point.t) (camera : CameraPose.t)
  (viewportWidth viewportHeight focalLength : R) : option ProjectedPoint.t :=
  let dx := Point.x point - CameraPose.x camera in
  let dy := Point.y point - CameraPose.y camera in
  let dz := Point.z point - CameraPose.z camera in
  let sinYaw := sin (CameraPose.yaw camera) in
  let cosYaw := cos (CameraPose.yaw camera) in
  let xYaw := cosYaw * dx - sinYaw * dz in
  let zYaw := sinYaw * dx + cosYaw * dz in
  let sinPitch := sin (CameraPose.pitch camera) in
  let cosPitch := cos (CameraPose.pitch camera) in
  let yPitch := cosPitch * dy - sinPitch * zYaw in
  let zPitch := sinPitch * dy + cosPitch * zYaw in
  if Rle_dec zPitch NEAR_PLANE then None
  else if Rge_dec zPitch FAR_PLANE then None
  else Some (ProjectedPoint.mk
               (viewportWidth * 0.5 + (xYaw / zPitch) * focalLength)
               (viewportHeight * 0.57 - (yPitch / zPitch) * focalLength)
               zPitch).

(** ** Scene renderer *)

(** The loop [for (const corner of corners)] of [renderScene]; [None] is
    the exit through [valid = false; break]. *)
Fixpoint projectCorners (corners : list Corner.t) (elevation : R)
  (camera : CameraPose.t) (width height focalLength : R)
  (projectedCorners : list ProjectedPoint.t) (depthTotal : R)
  : option (list ProjectedPoint.t * R) :=
  match corners with
  | [] => Some (projectedCorners, depthTotal)
  | corner :: rest =>
      match projectPoint (Point.mk (Corner.x corner) elevation (Corner.z corner))
                         camera width height focalLength with
      | None => None
      | Some projected =>
          projectCorners rest elevation camera width height focalLength
            (projectedCorners ++ [projected])
            (depthTotal + ProjectedPoint.depth projected)
      end
  end.

Section Renderer.
Context `{Host}.

(** One turn of the loop over the tiles: the draw item pushed for the tile
    at [index], or [None] when the turn ends in [continue]. *)
Definition drawItemOfTile (tile : HexMapTile.t) (index : nat)
  (camera : CameraPose.t) (selectedIndex : nat) (width height focalLength : R)
  : option DrawItem.t :=
  let elevation := TerrainCell.height (HexMapTile.terrain tile) * HEIGHT_SCALE in
  let corners := hexCorners (HexMapTile.x tile) (HexMapTile.y tile) HEX_SIZE in
  match projectCorners corners elevation camera width height focalLength [] 0 with
  | None => None
  | Some (projectedCorners, depthTotal) =>
      match projectedCorners with
      | [] => None
      | first :: others =>
          let path :=
            PathMoveTo (ProjectedPoint.x first) (ProjectedPoint.y first)
            :: map (fun p => PathLineTo (ProjectedPoint.x p) (ProjectedPoint.y p)) others
            ++ [PathClose] in
          let depth := depthTotal / INR (length projectedCorners) in
          let distanceShade := clamp (1 - depth / 520) 0.2 1 in
          let elevationShade :=
            clamp ((elevation / HEIGHT_SCALE - 0.5) * 0.25) (-0.16) 0.18 in
          let color :=
            tintHex (HexMapTile.color tile) (distanceShade - 1 + elevationShade) in
          Some (DrawItem.mk path color depth (Nat.eqb index selectedIndex))
      end
  end.

Fixpoint buildDrawQueue (tiles : list HexMapTile.t) (index : nat)
  (camera : CameraPose.t) (selectedIndex : nat) (width height focalLength : R)
  (drawQueue : list DrawItem.t) : list DrawItem.t :=
  match tiles with
  | [] => drawQueue
  | tile :: rest =>
      match drawItemOfTile tile index camera selectedIndex width height focalLength with
      | None =>
          buildDrawQueue rest (S index) camera selectedIndex width height
            focalLength drawQueue
      | Some item =>
          buildDrawQueue rest (S index) camera selectedIndex width height
            focalLength (drawQueue ++ [item])
      end
  end.

(** [drawQueue] of [renderScene] after
    [drawQueue.sort((a, b) => b.depth - a.depth)]. *)
Definition sortedDrawQueue (canvas : Canvas.t) (tiles : list HexMapTile.t)
  (camera : CameraPose.t) (selectedIndex : nat) : list DrawItem.t :=
  let width := Canvas.width canvas in
  let height := Canvas.height canvas in
  let focalLength := (height * 0.86) / tan (FOV_RAD * 0.5) in
  JS.sort (fun a b => DrawItem.depth b - DrawItem.depth a)
          (buildDrawQueue tiles 0 camera selectedIndex width height focalLength []).

(** The calls of the loop [for (const item of drawQueue)] for one item. *)
Definition paintItem (item : DrawItem.t) : list CanvasOp :=
  [ SetFillStyle (StyleColor (DrawItem.color item));
    Fill (DrawItem.path item);
    SetLineWidth (if DrawItem.highlighted item then 2.3 else 1.2);
    SetStrokeStyle (StyleColor (if DrawItem.highlighted item
                                then "rgba(255, 255, 255, 0.92)"
                                else "rgba(11, 18, 29, 0.42)"));
    StrokePath (DrawItem.path item) ].

(** [renderScene]: the calls made on the context, in order. *)
Definition renderScene (canvas : Canvas.t) (tiles : list HexMapTile.t)
  (camera : CameraPose.t) (selectedIndex : nat) : list CanvasOp :=
  let width := Canvas.width canvas in
  let height := Canvas.height canvas in
  let sky :=
    StyleLinearGradient 0 0 0 height
      [(0, "#0e1f33"); (0.55, "#15304b"); (1, "#1f2f22")] in
  let crosshairX := width * 0.5 in
  let crosshairY := height * 0.55 in
  [SetFillStyle sky; FillRect 0 0 width height]
  ++ flat_map paintItem (sortedDrawQueue canvas tiles camera selectedIndex)
  ++ [ SetStrokeStyle (StyleColor "rgba(230, 245, 255, 0.8)");
       SetLineWidth 1;
       BeginPath;
       MoveTo (crosshairX - 8) crosshairY;
       LineTo (crosshairX + 8) crosshairY;
       MoveTo crosshairX (crosshairY - 8);
       LineTo crosshairX (crosshairY + 8);
       Stroke ].

End Renderer.

(** ** Input and render loop *)

(** [keys.has(code)] on the set of held keys. *)
Definition has (keys : gset string) (code : string) : bool :=
  bool_decide (code ∈ keys).

(** The state the effect of the render loop closes over, and what one call
    of [tick] leaves behind: the state, the calls on the canvas context and
    the values handed to [setSelectedIndex] and [setCameraHud], if any. *)
Module Loop.
Record t := mk {
  camera : CameraPose.t;
  canvas : Canvas.t;
  lastTime : R;
  hudAccumulator : R
}.
End Loop.

Module Frame.
Record t := mk {
  state : Loop.t;
  drawn : list CanvasOp;
  hud : option (nat * CameraHud.t)
}.
End Frame.

Definition applyCanvasSize (devicePixelRatio : R) (canvas : Canvas.t) : Canvas.t :=
  let ratio := if Req_dec_T devicePixelRatio 0 then 1 else devicePixelRatio in
  let width := JS.max 1 (JS.floor (Canvas.clientWidth canvas * ratio)) in
  let height := JS.max 1 (JS.floor (Canvas.clientHeight canvas * ratio)) in
  if Req_dec_T (Canvas.width canvas) width then
    if Req_dec_T (Canvas.height canvas) height then canvas
    else Canvas.mk (Canvas.clientWidth canvas) (Canvas.clientHeight canvas) width height
  else Canvas.mk (Canvas.clientWidth canvas) (Canvas.clientHeight canvas) width height.

(** The planar movement of [tick]: the camera after [camera.x += ...] and
    [camera.z += ...]. *)
Definition moveCamera (mode : ExplorerMode) (keys : gset string) (deltaSeconds : R)
  (camera : CameraPose.t) : CameraPose.t :=
  let sprint := has keys "ShiftLeft" || has keys "ShiftRight" in
  let baseSpeed := match mode with fly => FLY_SPEED | walk => WALK_SPEED end in
  let speed := if sprint then baseSpeed * 1.85 else baseSpeed in
  let inputX := 0 in
  let inputZ := 0 in
  let inputZ := if has keys "KeyW" || has keys "ArrowUp" then inputZ + 1 else inputZ in
  let inputZ := if has keys "KeyS" || has keys "ArrowDown" then inputZ - 1 else inputZ in
  let inputX := if has keys "KeyA" || has keys "ArrowLeft" then inputX - 1 else inputX in
  let inputX := if has keys "KeyD" || has keys "ArrowRight" then inputX + 1 else inputX in
  let inputLength := JS.hypot inputX inputZ in
  if Rgt_dec inputLength 0 then
    let nx := inputX / inputLength in
    let nz := inputZ / inputLength in
    let sinYaw := sin (CameraPose.yaw camera) in
    let cosYaw := cos (CameraPose.yaw camera) in
    CameraPose.mk
      (CameraPose.x camera + (nx * cosYaw + nz * sinYaw) * speed * deltaSeconds)
      (CameraPose.y camera)
      (CameraPose.z camera + (nz * cosYaw - nx * sinYaw) * speed * deltaSeconds)
      (CameraPose.yaw camera)
      (CameraPose.pitch camera)
  else camera.

(** The height rule of [tick] for the camera after the planar movement,
    with [ground] sampled under it. *)
Definition settleHeight (mode : ExplorerMode) (keys : gset string) (deltaSeconds : R)
  (ground : R) (y : R) : R :=
  match mode with
  | walk => ground + HUMAN_EYE_HEIGHT
  | fly =>
      let verticalInput := 0 in
      let verticalInput :=
        if has keys "Space" || has keys "KeyE" then verticalInput + 1 else verticalInput in
      let verticalInput :=
        if has keys "KeyC" || has keys "KeyQ" then verticalInput - 1 else verticalInput in
      let y := y + verticalInput * VERTICAL_FLY_SPEED * deltaSeconds in
      JS.max y (ground + 0.6)
  end.

Section RenderLoop.
Context `{Host}.

(** One call of [tick(now)] in the effect for [mode] and [tiles], with the
    keys held and the device pixel ratio at that moment. *)
Definition tick (mode : ExplorerMode) (tiles : list HexMapTile.t)
  (keys : gset string) (devicePixelRatio : R) (st : Loop.t) (now : R) : Frame.t :=
  let canvas := applyCanvasSize devicePixelRatio (Loop.canvas st) in
  let deltaSeconds := JS.min 0.05 ((now - Loop.lastTime st) / 1000) in
  let lastTime := now in
  let camera := moveCamera mode keys deltaSeconds (Loop.camera st) in
  let ground := sampleGroundHeight tiles (CameraPose.x camera) (CameraPose.z camera) in
  let camera :=
    CameraPose.mk (CameraPose.x camera)
      (settleHeight mode keys deltaSeconds ground (CameraPose.y camera))
      (CameraPose.z camera)
      (wrapAngle (CameraPose.yaw camera))
      (clamp (CameraPose.pitch camera) (-1.2) 0.75) in
  let nearestIndex :=
    findNearestTileIndex tiles (CameraPose.x camera) (CameraPose.z camera) in
  let drawn := renderScene canvas tiles camera nearestIndex in
  let hudAccumulator := Loop.hudAccumulator st + deltaSeconds * 1000 in
  if Rge_dec hudAccumulator CAMERA_UPDATE_MS
  then Frame.mk (Loop.mk camera canvas lastTime 0) drawn
                (Some (nearestIndex, CameraHud.mk camera ground))
  else Frame.mk (Loop.mk camera canvas lastTime hudAccumulator) drawn None.

End RenderLoop.

(** [handlePointerMove]: the drag record and the camera after the event. *)
Definition handlePointerMove (drag : Drag.t) (camera : CameraPose.t)
  (event : PointerEvent.t) : Drag.t * CameraPose.t :=
  if negb (Drag.active drag)
     || negb (Z.eqb (Drag.pointerId drag) (PointerEvent.pointerId event))
  then (drag, camera)
  else
    let dx := PointerEvent.clientX event - Drag.lastX drag in
    let dy := PointerEvent.clientY event - Drag.lastY drag in
    let drag :=
      Drag.mk (Drag.active drag) (Drag.pointerId drag)
              (PointerEvent.clientX event) (PointerEvent.clientY event) in
    let yaw := wrapAngle (CameraPose.yaw camera + dx * LOOK_SENSITIVITY) in
    let pitch :=
      clamp (CameraPose.pitch camera - dy * LOOK_SENSITIVITY * 0.82) (-1.2) 0.75 in
    (drag,
     CameraPose.mk (CameraPose.x camera) (CameraPose.y camera) (CameraPose.z camera)
                   yaw pitch).

(** ** The rest of the explorer: score store, effects and handlers *)

(** [GameState], [GameAction] and the reducer of the scoped store. *)
Module GameState.
Record t := mk {
  score : R;
  level : R;
  isPaused : bool
}.
End GameState.

Inductive GameAction :=
| INCREMENT_SCORE (payload : R)
| SET_LEVEL (payload : R)
| TOGGLE_PAUSE
| RESET_GAME.

Definition initialState : GameState.t := GameState.mk 0 1 false.

Definition gameReducer (state : GameState.t) (action : GameAction) : GameState.t :=
  match action with
  | INCREMENT_SCORE payload =>
      GameState.mk (GameState.score state + payload) (GameState.level state)
                   (GameState.isPaused state)
  | SET_LEVEL payload =>
      GameState.mk (GameState.score state) payload (GameState.isPaused state)
  | TOGGLE_PAUSE =>
      GameState.mk (GameState.score state) (GameState.level state)
                   (negb (GameState.isPaused state))
  | RESET_GAME => initialState
  end.

(** [safeSelectedIndex] of [Game]: the selected index when it is an index
    of [tiles], 0 otherwise. *)
Definition safeSelectedIndex (selectedIndex : Z) (tiles : list HexMapTile.t) : Z :=
  if (0 <=? selectedIndex)%Z && (selectedIndex <? Z.of_nat (length tiles))%Z
  then selectedIndex else 0%Z.

(** The seed after [handleRegenerate]:
    [((current * 1664525 + 1013904223) >>> 0) % 2147483647], on a seed that
    is a whole number from 0 on: [>>> 0] keeps the low 32 bits. *)
Definition nextSeed (current : Z) : Z :=
  (((current * 1664525 + 1013904223) mod 2 ^ 32) mod 2147483647)%Z.

(** [handleRegenerate] on the pair of the seed and the selected index. *)
Definition handleRegenerate (st : Z * Z) : Z * Z := (nextSeed (fst st), 0%Z).

(** The effect on [tiles]: the camera it stores, the index it selects and
    the HUD it sets. *)
Definition tilesEffect (tiles : list HexMapTile.t) : CameraPose.t * nat * CameraHud.t :=
  let camera := initialCamera tiles in
  let nearestIndex :=
    findNearestTileIndex tiles (CameraPose.x camera) (CameraPose.z camera) in
  (camera, nearestIndex,
   CameraHud.mk camera
     (sampleGroundHeight tiles (CameraPose.x camera) (CameraPose.z camera))).

(** The effect on [mode] and [tiles]: the camera after it. *)
Definition modeEffect (mode : ExplorerMode) (tiles : list HexMapTile.t)
  (camera : CameraPose.t) : CameraPose.t :=
  let ground := sampleGroundHeight tiles (CameraPose.x camera) (CameraPose.z camera) in
  let y :=
    match mode with
    | walk => ground + HUMAN_EYE_HEIGHT
    | fly => JS.max (CameraPose.y camera) (ground + HUMAN_EYE_HEIGHT + 5)
    end in
  CameraPose.mk (CameraPose.x camera) y (CameraPose.z camera)
                (CameraPose.yaw camera) (CameraPose.pitch camera).

Module KeyboardEvent.
Record t := mk {
  code : string;
  repeat : bool
}.
End KeyboardEvent.

(** What the key and focus handlers act on: the mode, the set of held keys
    and the drag record. *)
Module Input.
Record t := mk {
  mode : ExplorerMode;
  keys : gset string;
  drag : Drag.t
}.
End Input.

Definition toggleMode (current : ExplorerMode) : ExplorerMode :=
  match current with walk => fly | fly => walk end.

(** [onKeyDown]: the input state after the event, and whether
    [event.preventDefault()] was called. *)
Definition onKeyDown (input : Input.t) (event : KeyboardEvent.t) : Input.t * bool :=
  let code := KeyboardEvent.code event in
  if KeyboardEvent.repeat event then (input, false)
  else if String.eqb code "KeyF"
  then (Input.mk (toggleMode (Input.mode input)) (Input.keys input) (Input.drag input),
        true)
  else
    (Input.mk (Input.mode input) ({[code]} ∪ Input.keys input) (Input.drag input),
     String.eqb code "Space"
     || String.prefix "Arrow" code
     || String.eqb code "KeyW"
     || String.eqb code "KeyA"
     || String.eqb code "KeyS"
     || String.eqb code "KeyD").

Definition onKeyUp (input : Input.t) (event : KeyboardEvent.t) : Input.t :=
  Input.mk (Input.mode input)
           (Input.keys input ∖ {[KeyboardEvent.code event]})
           (Input.drag input).

Definition onBlur (input : Input.t) : Input.t :=
  Input.mk (Input.mode input) ∅
           (Drag.mk false (Drag.pointerId (Input.drag input))
                    (Drag.lastX (Input.drag input)) (Drag.lastY (Input.drag input))).

(** [handlePointerDown]; [canvas] is [canvasRef.current], [None] when the
    canvas is not mounted. *)
Definition handlePointerDown (canvas : option Canvas.t) (drag : Drag.t)
  (event : PointerEvent.t) : Drag.t :=
  match canvas with
  | None => drag
  | Some _ =>
      Drag.mk true (PointerEvent.pointerId event)
              (PointerEvent.clientX event) (PointerEvent.clientY event)
  end.

Definition handlePointerUp (drag : Drag.t) (event : PointerEvent.t) : Drag.t :=
  if negb (Z.eqb (Drag.pointerId drag) (PointerEvent.pointerId event))
  then drag
  else Drag.mk false (-1) (Drag.lastX drag) (Drag.lastY drag).

(** The net planar input and the speed that [tick] reads off the held
    keys. *)
Definition heldInput (keys : gset string) : R * R :=
  let inputX := 0 in
  let inputZ := 0 in
  let inputZ := if has keys "KeyW" || has keys "ArrowUp" then inputZ + 1 else inputZ in
  let inputZ := if has keys "KeyS" || has keys "ArrowDown" then inputZ - 1 else inputZ in
  let inputX := if has keys "KeyA" || has keys "ArrowLeft" then inputX - 1 else inputX in
  let inputX := if has keys "KeyD" || has keys "ArrowRight" then inputX + 1 else inputX in
  (inputX, inputZ).

Definition heldSpeed (mode : ExplorerMode) (keys : gset string) : R :=
  let sprint := has keys "ShiftLeft" || has keys "ShiftRight" in
  let baseSpeed := match mode with fly => FLY_SPEED | walk => WALK_SPEED end in
  if sprint then baseSpeed * 1.85 else baseSpeed.

(** ** Tiling helpers of the world map ([src/game.tsx]) *)

Module WorldMap.

Definition SQRT3 : R := sqrt 3.

Definition axialToPixel (q r size : R) : R * R :=
  (size * 1.5 * q, size * SQRT3 * (r + q / 2)).

Section Points.
Context `{Host}.

(** The body of the loop of [hexPolygonPoints]. *)
Definition hexPolygonPointsStep (x y size : R) (points : list string) (i : nat)
  : list string :=
  let angle := (PI / 180) * (60 * INR i + 30) in
  let px := x + size * cos angle in
  let py := y + size * sin angle in
  points ++ [(toFixed px 2 ++ "," ++ toFixed py 2)%string].

Definition hexPolygonPoints (x y size : R) : string :=
  String.concat " " (fold_left (hexPolygonPointsStep x y size) (seq 0 6) []).

End Points.

End WorldMap.

(** ** The rest of the world map: colours, tiles and bounds *)

(** The enumerations [SurfaceCover] and [TerrainBiome] of the world
    generator; the numbers behind their names are not part of this
    repository and are kept as parameters. *)
Module SurfaceCover.
Class t := {
  Grass : Z; Dirt : Z; Sand : Z; Rock : Z; Gravel : Z; Snowpack : Z; Ice : Z;
  Mud : Z; Ash : Z; Cobble : Z; Road : Z; Water : Z; Basalt : Z; Crystal : Z;
  Sludge : Z
}.
End SurfaceCover.

Module TerrainBiome.
Class t := {
  Plains : Z; Tundra : Z; Savanna : Z; River : Z; City : Z; Village : Z; Ice : Z;
  Snow : Z; Mountainous : Z; Volcanic : Z; Road : Z; Town : Z; Castle : Z;
  MixedForest : Z
}.
End TerrainBiome.

(** [HexCell] of the world generator. *)
Module HexCell.
Record t := mk {
  q : Z;
  r : Z;
  level : Z
}.
End HexCell.

(** A number that may be [Number.POSITIVE_INFINITY] or
    [Number.NEGATIVE_INFINITY], with [Math.min] and [Math.max] of such a
    number and a finite one. *)
Inductive Extended :=
| NegativeInfinity
| Finite (value : R)
| PositiveInfinity.

Definition minExtended (a : Extended) (b : R) : Extended :=
  match a with
  | NegativeInfinity => NegativeInfinity
  | Finite a' => Finite (JS.min a' b)
  | PositiveInfinity => Finite b
  end.

Definition maxExtended (a : Extended) (b : R) : Extended :=
  match a with
  | NegativeInfinity => Finite b
  | Finite a' => Finite (JS.max a' b)
  | PositiveInfinity => PositiveInfinity
  end.

Module Bounds.
Record t := mk {
  minX : Extended;
  maxX : Extended;
  minY : Extended;
  maxY : Extended
}.
End Bounds.

(** An object literal with computed numeric keys: a later entry replaces an
    earlier one of the same key. *)
Definition objectOf (entries : list (Z * string)) : gmap Z string :=
  fold_left (fun object entry => <[fst entry := snd entry]> object) entries ∅.

Section Palette.
Context `{Host} `{SurfaceCover.t} `{TerrainBiome.t}.

Definition SURFACE_COLORS : gmap Z string :=
  objectOf
    [ (SurfaceCover.Grass, "#5bb768"); (SurfaceCover.Dirt, "#86604a");
      (SurfaceCover.Sand, "#d7b273"); (SurfaceCover.Rock, "#7c879a");
      (SurfaceCover.Gravel, "#91a0b2"); (SurfaceCover.Snowpack, "#d7ecff");
      (SurfaceCover.Ice, "#99e0ff"); (SurfaceCover.Mud, "#69503c");
      (SurfaceCover.Ash, "#6f6476"); (SurfaceCover.Cobble, "#9ba7b8");
      (SurfaceCover.Road, "#6f6a60"); (SurfaceCover.Water, "#3f83d2");
      (SurfaceCover.Basalt, "#4f5a70"); (SurfaceCover.Crystal, "#75ffd8");
      (SurfaceCover.Sludge, "#5d7948") ]%string.

Definition BIOME_COLORS : gmap Z string :=
  objectOf
    [ (TerrainBiome.Plains, "#89bf67"); (TerrainBiome.Tundra, "#a5b8ce");
      (TerrainBiome.Savanna, "#c8b470"); (TerrainBiome.River, "#498dd6");
      (TerrainBiome.City, "#9da9b8"); (TerrainBiome.Village, "#b1906d");
      (TerrainBiome.Ice, "#b7f0ff"); (TerrainBiome.Snow, "#e2f4ff");
      (TerrainBiome.Mountainous, "#7a8596"); (TerrainBiome.Volcanic, "#8d6c69");
      (TerrainBiome.Road, "#7a7469"); (TerrainBiome.Town, "#958774");
      (TerrainBiome.Castle, "#9aa7bb"); (TerrainBiome.MixedForest, "#4f9464") ]%string.

Definition withLightness (hex : string) (amount : R) : string :=
  let safe := JS.removeFirstHash hex in
  let channels :=
    if Nat.eqb (String.length safe) 3
    then map (fun c => parseInt (String c (String c EmptyString)) 16)
             (list_ascii_of_string safe)
    else map (fun offset => parseInt (JS.slice safe offset (offset + 2)) 16)
             [0; 2; 4]%nat in
  let factor := clamp (1 + amount) 0.3 1.8 in
  let next := String.concat "" (map (tintChannel factor) channels) in
  String "#" next.

Definition defaultBiomeColor (terrain : TerrainCell.t) : string :=
  match BIOME_COLORS !! TerrainCell.biome terrain with
  | Some color => color
  | None => "#8b9eb6"
  end.

Definition resolveTileColor (terrain : TerrainCell.t) : string :=
  let base :=
    match TerrainCell.surface terrain with
    | Some surface =>
        match SURFACE_COLORS !! surface with
        | Some color => color
        | None => defaultBiomeColor terrain
        end
    | None => defaultBiomeColor terrain
    end in
  let elevationBoost := clamp (TerrainCell.height terrain * 0.28) (-0.2) 0.22 in
  withLightness base elevationBoost.

Definition buildHexMapTiles (cells : list HexCell.t) (terrain : list TerrainCell.t)
  (size : R) : list HexMapTile.t :=
  imap (fun index cell =>
          let terrainCell :=
            match terrain !! index with
            | Some cell' => cell'
            | None => TerrainCell.mk 0 0 0 TerrainBiome.Plains None None None
            end in
          let position :=
            WorldMap.axialToPixel (IZR (HexCell.q cell)) (IZR (HexCell.r cell)) size in
          HexMapTile.mk (HexCell.q cell) (HexCell.r cell) (fst position) (snd position)
            (WorldMap.hexPolygonPoints (fst position) (snd position) size)
            (resolveTileColor terrainCell)
            terrainCell)
       cells.

End Palette.

(** The body of the loop of [computeMapBounds]. *)
Definition computeMapBoundsStep (size : R) (bounds : Bounds.t) (tile : HexMapTile.t)
  : Bounds.t :=
  Bounds.mk (minExtended (Bounds.minX bounds) (HexMapTile.x tile - size))
            (maxExtended (Bounds.maxX bounds) (HexMapTile.x tile + size))
            (minExtended (Bounds.minY bounds) (HexMapTile.y tile - size))
            (maxExtended (Bounds.maxY bounds) (HexMapTile.y tile + size)).

Definition computeMapBounds (tiles : list HexMapTile.t) (size : R) : Bounds.t :=
  if Nat.eqb (length tiles) 0
  then Bounds.mk (Finite (- size)) (Finite size) (Finite (- size)) (Finite size)
  else
    fold_left (computeMapBoundsStep size) tiles
      (Bounds.mk PositiveInfinity NegativeInfinity PositiveInfinity NegativeInfinity).

(** ** Notions of the specification *)

(** The orientation invariant of a camera pose. *)
Definition orientationInvariant (camera : CameraPose.t) : Prop :=
  (-1.2 <= CameraPose.pitch camera <= 0.75) /\
  (- PI < CameraPose.yaw camera <= PI).

(** The rotation about the vertical axis that undoes the yaw, and the
    rotation about the horizontal axis it leaves that undoes the pitch. *)
Definition rotateYaw (yaw : R) (v : Point.t) : Point.t :=
  Point.mk (cos yaw * Point.x v - sin yaw * Point.z v)
           (Point.y v)
           (sin yaw * Point.x v + cos yaw * Point.z v).

Definition rotatePitch (pitch : R) (v : Point.t) : Point.t :=
  Point.mk (Point.x v)
           (cos pitch * Point.y v - sin pitch * Point.z v)
           (sin pitch * Point.y v + cos pitch * Point.z v).

(** The depth of a world point along the forward axis of the camera: the
    third coordinate once the point is taken relative to the camera and
    rotated by yaw, then by pitch. *)
Definition forwardDepth (point : Point.t) (camera : CameraPose.t) : R :=
  Point.z
    (rotatePitch (CameraPose.pitch camera)
       (rotateYaw (CameraPose.yaw camera)
          (Point.mk (Point.x point - CameraPose.x camera)
                    (Point.y point - CameraPose.y camera)
                    (Point.z point - CameraPose.z camera)))).

(** The squared Euclidean distance of a tile's centre from [(x, z)]. *)
Definition squaredDistance (tile : HexMapTile.t) (x z : R) : R :=
  (HexMapTile.x tile - x) * (HexMapTile.x tile - x)
  + (HexMapTile.y tile - z) * (HexMapTile.y tile - z).

(** [firstNearest tiles x z i]: the tile at index [i] is at the least
    squared distance from [(x, z)] over the whole list, and no tile at a
    lower index is at that distance. *)
Definition firstNearest (tiles : list HexMapTile.t) (x z : R) (i : nat) : Prop :=
  exists nearest,
    tiles !! i = Some nearest
    /\ (forall j tile, tiles !! j = Some tile ->
          squaredDistance nearest x z <= squaredDistance tile x z)
    /\ (forall j tile, tiles !! j = Some tile ->
          squaredDistance tile x z = squaredDistance nearest x z -> (i <= j)%nat).

(** The invariant of the loop of [findNearestTileIndex] once the tiles of
    [visited] are behind it. *)
Definition nearestSoFar (visited : list HexMapTile.t) (x z : R)
  (nearestIndex : nat) (nearestDistance : option R) : Prop :=
  match nearestDistance with
  | None => visited = [] /\ nearestIndex = 0%nat
  | Some distance =>
      firstNearest visited x z nearestIndex
      /\ exists nearest,
           visited !! nearestIndex = Some nearest
           /\ distance = squaredDistance nearest x z
  end.

(** [farther a b]: draw item [a] is at least as deep as [b]. *)
Definition farther (a b : DrawItem.t) : Prop :=
  DrawItem.depth a >= DrawItem.depth b.

(** [projectPoint] takes the corner, at the elevation of its tile, to the
    projected point. *)
Definition cornerProjectsTo (elevation : R) (camera : CameraPose.t)
  (width height focalLength : R) (corner : Corner.t)
  (projected : ProjectedPoint.t) : Prop :=
  projectPoint (Point.mk (Corner.x corner) elevation (Corner.z corner))
               camera width height focalLength = Some projected.

(** The text of one colour channel: two lowercase hexadecimal digits, or
    ["NaN"]. *)
Definition isHexDigit (c : ascii) : bool :=
  let n := nat_of_ascii c in
  ((48 <=? n)%nat && (n <=? 57)%nat) || ((97 <=? n)%nat && (n <=? 102)%nat).

Definition twoHexDigits (s : string) : bool :=
  match s with
  | String a (String b EmptyString) => isHexDigit a && isHexDigit b
  | _ => false
  end.

(** What [parseInt] returns for the three channels that [tintHex] and
    [withLightness] read from a colour string: the doubled characters of a
    string of three characters after the ["#"], the two-character slices at
    0, 2 and 4 otherwise. *)
Definition parsedChannels `{Host} (hex : string) : list (option Z) :=
  let safe := JS.removeFirstHash hex in
  if Nat.eqb (String.length safe) 3
  then map (fun c => parseInt (String c (String c EmptyString)) 16)
           (list_ascii_of_string safe)
  else map (fun offset => parseInt (JS.slice safe offset (offset + 2)) 16)
           [0; 2; 4]%nat.

(** The text of a channel agrees with what was parsed: ["NaN"] for a
    channel that [parseInt] could not read, two lowercase hexadecimal digits
    for one that it could. *)
Definition channelTextOf (parsed : option Z) (text : string) : Prop :=
  match parsed with
  | None => text = "NaN"%string
  | Some _ => twoHexDigits text = true
  end.

(** The number of highlighted items of a draw queue. *)
Definition highlightedCount (queue : list DrawItem.t) : nat :=
  length (List.filter DrawItem.highlighted queue).

(** A tile of plains centred at [(x, y)], for the examples. *)
Definition tileAt (x y : R) : HexMapTile.t :=
  HexMapTile.mk 0 0 x y "" "#89bf67" (TerrainCell.mk 0.2 0.5 0.4 0 None None None).

(** The arithmetic mean of a list of numbers. *)
Definition mean (values : list R) : R :=
  fold_right Rplus 0 values / INR (length values).

(** The depth of the draw item is the mean of the depths of the projected
    corners of the tile, every corner of the hexagon being projected. *)
Definition averagesCorners (tile : HexMapTile.t) (camera : CameraPose.t)
  (width height focalLength : R) (item : DrawItem.t) : Prop :=
  exists projectedCorners,
    Forall2 (cornerProjectsTo
               (TerrainCell.height (HexMapTile.terrain tile) * HEIGHT_SCALE)
               camera width height focalLength)
            (hexCorners (HexMapTile.x tile) (HexMapTile.y tile) HEX_SIZE)
            projectedCorners
    /\ DrawItem.depth item = mean (map ProjectedPoint.depth projectedCorners).

(** A corner written as a pair of coordinates in the fixed-point notation
    with two decimals. *)
Definition formatCorner `{Host} (corner : Corner.t) : string :=
  (toFixed (Corner.x corner) 2 ++ "," ++ toFixed (Corner.z corner) 2)%string.

(** The paths filled by a sequence of calls on the context, in order. *)
Definition filledPaths (ops : list CanvasOp) : list (list PathOp) :=
  flat_map (fun op => match op with Fill path => [path] | _ => [] end) ops.

(** * Properties *)

Section Builtins.

Lemma min_le_l a b : JS.min a b <= a.
Proof. unfold JS.min. destruct (Rle_dec a b); lra. Qed.

Lemma min_le_r a b : JS.min a b <= b.
Proof. unfold JS.min. destruct (Rle_dec a b); lra. Qed.

Lemma min_glb a b c : c <= a -> c <= b -> c <= JS.min a b.
Proof. unfold JS.min. destruct (Rle_dec a b); lra. Qed.

Lemma max_ge_l a b : a <= JS.max a b.
Proof. unfold JS.max. destruct (Rle_dec a b); lra. Qed.

Lemma max_ge_r a b : b <= JS.max a b.
Proof. unfold JS.max. destruct (Rle_dec a b); lra. Qed.

Lemma clamp_bounds v lo hi : lo <= hi -> lo <= clamp v lo hi <= hi.
Proof.
  intros Hlh. unfold clamp. split.
  - apply min_glb; [exact Hlh | apply max_ge_l].
  - apply min_le_l.
Qed.

(** The integer part towards zero is within one of its argument, on the
    side of zero. *)
Lemma trunc_nonneg x : 0 <= x -> IZR (JS.trunc x) <= x < IZR (JS.trunc x) + 1.
Proof.
  intros Hx. unfold JS.trunc. destruct (Rle_dec 0 x) as [_ | Hn]; [| lra].
  destruct (base_Int_part x). lra.
Qed.

Lemma trunc_neg x : x < 0 -> IZR (JS.trunc x) - 1 < x <= IZR (JS.trunc x).
Proof.
  intros Hx. unfold JS.trunc. destruct (Rle_dec 0 x) as [Hp | _]; [lra |].
  destruct (base_Int_part (- x)). rewrite opp_IZR. lra.
Qed.


Lemma rem_nonneg n d : 0 < d -> 0 <= n -> 0 <= JS.rem n d < d.
Proof.
  intros Hd Hn. unfold JS.rem.
  assert (Hq : 0 <= n / d) by (apply Rmult_le_pos; [lra | left; now apply Rinv_0_lt_compat]).
  destruct (trunc_nonneg _ Hq) as [H1 H2].
  assert (Hnd : n = n / d * d) by (field; lra).
  split; nra.
Qed.

Lemma rem_neg n d : 0 < d -> n < 0 -> - d < JS.rem n d <= 0.
Proof.
  intros Hd Hn. unfold JS.rem.
  assert (Hi : 0 < / d) by now apply Rinv_0_lt_compat.
  assert (Hq : n / d < 0) by (unfold Rdiv; nra).
  destruct (trunc_neg _ Hq) as [H1 H2].
  assert (Hnd : n = n / d * d) by (field; lra).
  split; nra.
Qed.

Lemma rem_abs n d : 0 < d -> - d < JS.rem n d < d.
Proof.
  intros Hd. destruct (Rle_lt_dec 0 n) as [Hn | Hn].
  - destruct (rem_nonneg n d Hd Hn). lra.
  - destruct (rem_neg n d Hd Hn). lra.
Qed.

End Builtins.

Section Wrapping.

Lemma wrapAngle_range (theta : R) : - PI < wrapAngle theta <= PI.
Proof.
  pose proof PI_RGT_0 as Hpi.
  unfold wrapAngle. cbv zeta.
  assert (Hout : 0 <= JS.rem (JS.rem theta (PI * 2) + PI * 2) (PI * 2) < PI * 2).
  { apply rem_nonneg; [lra |].
    destruct (rem_abs theta (PI * 2)); lra. }
  destruct (Rgt_dec _ PI); lra.
Qed.



End Wrapping.

Section DoubleWrapping.
Import Floats.

(** On the sample angles the code's [wrapAngle] stays in the range from
    [-Math.PI] (excluded) to [Math.PI] (included). *)
Example wrapAngle_double_samples_in_range :
  forallb (fun theta =>
             PrimFloat.ltb (PrimFloat.opp Double.PI) (Double.wrapAngle theta)
             && PrimFloat.leb (Double.wrapAngle theta) Double.PI)
          Double.sampleAngles = true.
Proof. vm_compute. reflexivity. Qed.

(** The end [-Math.PI] goes to [Math.PI], and an angle just below 0 to 0. *)
Example wrapAngle_double_ends :
  Double.wrapAngle (PrimFloat.opp Double.PI) = Double.PI
  /\ Double.wrapAngle (-0x1p-70)%float = 0%float.
Proof. split; vm_compute; reflexivity. Qed.


End DoubleWrapping.

Section Camera.
Context `{Host}.

(** C1: in walk mode, after a call of [tick] (whatever the camera height
    before, the keys held and the elapsed time), the camera stands at the
    [(x, z)] the planar movement took it to, and its height is the ground
    height sampled at that [(x, z)] plus [HUMAN_EYE_HEIGHT]. *)
Theorem tick_walk_pins_height (tiles : list HexMapTile.t) (keys : gset string)
  (devicePixelRatio : R) (st : Loop.t) (now : R) :
  let deltaSeconds := JS.min 0.05 ((now - Loop.lastTime st) / 1000) in
  let moved := moveCamera walk keys deltaSeconds (Loop.camera st) in
  let camera := Loop.camera (Frame.state (tick walk tiles keys devicePixelRatio st now)) in
  CameraPose.x camera = CameraPose.x moved
  /\ CameraPose.z camera = CameraPose.z moved
  /\ CameraPose.y camera
     = sampleGroundHeight tiles (CameraPose.x camera) (CameraPose.z camera)
       + HUMAN_EYE_HEIGHT.
Proof.
  cbv zeta. unfold tick.
  destruct (Rge_dec _ CAMERA_UPDATE_MS); repeat split; reflexivity.
Qed.

(** C2: in fly mode, after a call of [tick] (whatever the camera height
    before, the vertical keys held and the elapsed time), the camera stands
    at the [(x, z)] the planar movement took it to, and its height is at
    least the ground height sampled at that [(x, z)] plus the clearance
    0.6. *)
Theorem tick_fly_floor (tiles : list HexMapTile.t) (keys : gset string)
  (devicePixelRatio : R) (st : Loop.t) (now : R) :
  let deltaSeconds := JS.min 0.05 ((now - Loop.lastTime st) / 1000) in
  let moved := moveCamera fly keys deltaSeconds (Loop.camera st) in
  let camera := Loop.camera (Frame.state (tick fly tiles keys devicePixelRatio st now)) in
  CameraPose.x camera = CameraPose.x moved
  /\ CameraPose.z camera = CameraPose.z moved
  /\ CameraPose.y camera
     >= sampleGroundHeight tiles (CameraPose.x camera) (CameraPose.z camera) + 0.6.
Proof.
  cbv zeta. unfold tick.
  destruct (Rge_dec _ CAMERA_UPDATE_MS);
    cbn [Frame.state Loop.camera CameraPose.x CameraPose.y CameraPose.z];
    (split; [reflexivity | split; [reflexivity |]]);
    unfold settleHeight; apply Rle_ge, max_ge_r.
Qed.

(** With the descend key held and nothing else, a camera resting on the
    floor of fly mode stays on it. *)
Example settleHeight_descend_on_floor (ground deltaSeconds : R) :
  0 <= deltaSeconds ->
  settleHeight fly {["KeyQ"]} deltaSeconds ground (ground + 0.6) = ground + 0.6.
Proof.
  intros Hdt. unfold settleHeight, VERTICAL_FLY_SPEED.
  replace (has {["KeyQ"]} "Space") with false by (vm_compute; reflexivity).
  replace (has {["KeyQ"]} "KeyE") with false by (vm_compute; reflexivity).
  replace (has {["KeyQ"]} "KeyC") with false by (vm_compute; reflexivity).
  replace (has {["KeyQ"]} "KeyQ") with true by (vm_compute; reflexivity).
  cbn. unfold JS.max. destruct (Rle_dec _ _); nra.
Qed.

End Camera.

Section Projection.

Lemma projectPoint_depth (point : Point.t) (camera : CameraPose.t) (w h f : R)
  (projected : ProjectedPoint.t) :
  projectPoint point camera w h f = Some projected ->
  ProjectedPoint.depth projected = forwardDepth point camera
  /\ NEAR_PLANE < ProjectedPoint.depth projected < FAR_PLANE.
Proof.
  unfold projectPoint, forwardDepth, rotatePitch, rotateYaw. cbn.
  destruct (Rle_dec _ NEAR_PLANE) as [Hn | Hn]; [discriminate |].
  destruct (Rge_dec _ FAR_PLANE) as [Hf | Hf]; [discriminate |].
  intros [= <-]. cbn. split; [reflexivity | lra].
Qed.

(** C3: [projectPoint] returns [null] exactly when the depth of the point
    along the camera's forward axis, after the rotation by yaw then pitch,
    is at most [NEAR_PLANE] or at least [FAR_PLANE]; a point at the camera
    position has depth 0 and is rejected. *)
Theorem projectPoint_rejects_iff (point : Point.t) (camera : CameraPose.t)
  (viewportWidth viewportHeight focalLength : R) :
  (projectPoint point camera viewportWidth viewportHeight focalLength = None
   <-> forwardDepth point camera <= NEAR_PLANE \/ forwardDepth point camera >= FAR_PLANE)
  /\ forwardDepth
       (Point.mk (CameraPose.x camera) (CameraPose.y camera) (CameraPose.z camera))
       camera = 0
  /\ projectPoint
       (Point.mk (CameraPose.x camera) (CameraPose.y camera) (CameraPose.z camera))
       camera viewportWidth viewportHeight focalLength = None.
Proof.
  split; [| split].
  - unfold projectPoint, forwardDepth, rotatePitch, rotateYaw. cbn.
    destruct (Rle_dec _ NEAR_PLANE) as [Hn | Hn].
    + split; [intros _; left; exact Hn | reflexivity].
    + destruct (Rge_dec _ FAR_PLANE) as [Hf | Hf].
      * split; [intros _; right; exact Hf | reflexivity].
      * split; [discriminate | intros [Hle | Hge]; contradiction].
  - unfold forwardDepth, rotatePitch, rotateYaw. cbn. ring.
  - unfold projectPoint. cbn.
    destruct (Rle_dec _ NEAR_PLANE) as [Hn | Hn]; [reflexivity |].
    exfalso. apply Hn. unfold NEAR_PLANE.
    match goal with |- ?e <= _ => replace e with 0 by ring end. lra.
Qed.



End Projection.

Section Orientation.
Context `{Host}.

Lemma orientation_after_update (x y z yaw pitch : R) :
  orientationInvariant
    (CameraPose.mk x y z (wrapAngle yaw) (clamp pitch (-1.2) 0.75)).
Proof.
  split; cbn.
  - apply clamp_bounds. lra.
  - apply wrapAngle_range.
Qed.

(** C6: the orientation invariant (pitch between -1.2 and 0.75, yaw in the
    interval from [-PI] excluded to [PI] included) holds after every call of
    [tick], and after every pointer move that the drag takes (the drag is
    active and the event is of its pointer), whatever the pose before and the
    input; a pointer move that the drag does not take changes nothing. *)
Theorem orientation_invariant_established :
  (forall (mode : ExplorerMode) (tiles : list HexMapTile.t) (keys : gset string)
          (devicePixelRatio : R) (st : Loop.t) (now : R),
      orientationInvariant
        (Loop.camera (Frame.state (tick mode tiles keys devicePixelRatio st now))))
  /\
  (forall (drag : Drag.t) (camera : CameraPose.t) (event : PointerEvent.t),
      if Drag.active drag && Z.eqb (Drag.pointerId drag) (PointerEvent.pointerId event)
      then orientationInvariant (snd (handlePointerMove drag camera event))
      else handlePointerMove drag camera event = (drag, camera)).
Proof.
  split.
  - intros mode tiles keys dpr st now. unfold tick.
    destruct (Rge_dec _ CAMERA_UPDATE_MS); apply orientation_after_update.
  - intros drag camera event. unfold handlePointerMove.
    destruct (Drag.active drag); cbn; [| reflexivity].
    destruct (Z.eqb _ _); cbn; [| reflexivity].
    apply orientation_after_update.
Qed.

End Orientation.

Section Nearest.
Variables x z : R.

Lemma nearestSoFar_take (visited : list HexMapTile.t) (tile : HexMapTile.t)
  (nearestIndex : nat) (nearestDistance : option R) :
  nearestSoFar visited x z nearestIndex nearestDistance ->
  JS.ltInf (squaredDistance tile x z) nearestDistance = true ->
  nearestSoFar (visited ++ [tile]) x z (length visited)
               (Some (squaredDistance tile x z)).
Proof.
  intros Hinv Hlt.
  assert (Hhere : (visited ++ [tile]) !! length visited = Some tile)
    by (apply list_lookup_middle; reflexivity).
  split; [| exists tile; split; [exact Hhere | reflexivity]].
  exists tile. split; [exact Hhere |].
  destruct nearestDistance as [distance |]; cbn in Hinv, Hlt.
  - destruct (Rlt_dec _ distance) as [Hd | Hd]; [| discriminate].
    destruct Hinv as [[nearest (Hn & Hmin & Hfirst)] (nearest' & Hn' & ->)].
    assert (nearest' = nearest) as -> by congruence.
    split.
    + intros j other [[_ Hj] | [_ <-]]%lookup_snoc_Some; [| lra].
      specialize (Hmin j other Hj). lra.
    + intros j other [[_ Hj] | [-> _]]%lookup_snoc_Some Heq; [| lia].
      specialize (Hmin j other Hj). lra.
  - destruct Hinv as [-> _]. split.
    + intros j other [[Hj _] | [_ <-]]%lookup_snoc_Some; [cbn in Hj; lia | lra].
    + intros j other [[Hj _] | [-> _]]%lookup_snoc_Some _; [cbn in Hj; lia | lia].
Qed.

Lemma nearestSoFar_keep (visited : list HexMapTile.t) (tile : HexMapTile.t)
  (nearestIndex : nat) (nearestDistance : option R) :
  nearestSoFar visited x z nearestIndex nearestDistance ->
  JS.ltInf (squaredDistance tile x z) nearestDistance = false ->
  nearestSoFar (visited ++ [tile]) x z nearestIndex nearestDistance.
Proof.
  intros Hinv Hlt.
  destruct nearestDistance as [distance |]; cbn in Hlt; [| discriminate].
  destruct (Rlt_dec _ distance) as [Hd | Hd]; [discriminate |].
  destruct Hinv as [[nearest (Hn & Hmin & Hfirst)] (nearest' & Hn' & ->)].
  assert (nearest' = nearest) as -> by congruence.
  assert (Hin : (nearestIndex < length visited)%nat) by (eapply lookup_lt_Some; eauto).
  assert (Hn2 : (visited ++ [tile]) !! nearestIndex = Some nearest)
    by (rewrite lookup_app_l; assumption).
  split; [| exists nearest; split; [exact Hn2 | reflexivity]].
  exists nearest. split; [exact Hn2 |]. split.
  - intros j other [[_ Hj] | [_ <-]]%lookup_snoc_Some; [eauto | lra].
  - intros j other [[_ Hj] | [-> _]]%lookup_snoc_Some Heq; [eauto | lia].
Qed.

Lemma nearestLoop_invariant (rest visited : list HexMapTile.t)
  (nearestIndex : nat) (nearestDistance : option R) :
  nearestSoFar visited x z nearestIndex nearestDistance ->
  visited ++ rest <> [] ->
  firstNearest (visited ++ rest) x z
    (nearestLoop rest x z (length visited) nearestIndex nearestDistance).
Proof.
  revert visited nearestIndex nearestDistance.
  induction rest as [| tile rest IH]; intros visited nearestIndex nearestDistance Hinv Hne.
  - rewrite app_nil_r in *. cbn.
    destruct nearestDistance as [distance |]; cbn in Hinv.
    + apply Hinv.
    + destruct Hinv as [-> _]. contradiction.
  - cbn [nearestLoop]. fold (squaredDistance tile x z).
    replace (visited ++ tile :: rest) with ((visited ++ [tile]) ++ rest)
      by (rewrite <- app_assoc; reflexivity).
    replace (S (length visited)) with (length (visited ++ [tile]))
      by (rewrite length_app; cbn; lia).
    destruct (JS.ltInf (squaredDistance tile x z) nearestDistance) eqn:Hlt.
    + apply IH; [eapply nearestSoFar_take; eassumption |].
      destruct visited; discriminate.
    + apply IH; [eapply nearestSoFar_keep; eassumption |].
      destruct visited; discriminate.
Qed.

(** C7: on the empty list [findNearestTileIndex] returns 0; on any other
    list it returns the index of a tile whose squared distance from
    [(x, z)] is least over the whole list, the lowest index among the tiles
    at that distance. *)
Theorem findNearestTileIndex_first_nearest :
  findNearestTileIndex [] x z = 0%nat
  /\ forall (tile : HexMapTile.t) (rest : list HexMapTile.t),
       firstNearest (tile :: rest) x z (findNearestTileIndex (tile :: rest) x z).
Proof.
  split; [reflexivity |]. intros tile rest.
  unfold findNearestTileIndex. cbn [length Nat.eqb].
  apply (nearestLoop_invariant (tile :: rest) [] 0 None).
  - split; reflexivity.
  - discriminate.
Qed.

End Nearest.

Section NearestExamples.

(** Tiles at (0, 0) and (100, 100): the query (1, 1) finds the first, the
    query (99, 99) the second; two tiles at the same distance: the first. *)
Example findNearestTileIndex_near_origin :
  findNearestTileIndex [tileAt 0 0; tileAt 100 100] 1 1 = 0%nat.
Proof.
  unfold findNearestTileIndex, tileAt. cbn.
  repeat (destruct (Rlt_dec _ _); try lra); reflexivity.
Qed.

Example findNearestTileIndex_near_far_tile :
  findNearestTileIndex [tileAt 0 0; tileAt 100 100] 99 99 = 1%nat.
Proof.
  unfold findNearestTileIndex, tileAt. cbn.
  repeat (destruct (Rlt_dec _ _); try lra); reflexivity.
Qed.

Example findNearestTileIndex_tie :
  findNearestTileIndex [tileAt 10 0; tileAt (-10) 0; tileAt 0 10] 0 0 = 0%nat.
Proof.
  unfold findNearestTileIndex, tileAt. cbn.
  repeat (destruct (Rlt_dec _ _); try lra); reflexivity.
Qed.

Example sampleGroundHeight_empty (x z : R) : sampleGroundHeight [] x z = 0.
Proof. reflexivity. Qed.

End NearestExamples.

Section DrawOrder.
Context `{Host}.

Lemma sortInsert_permutation {A : Type} (comparefn : A -> A -> R) (a : A) (l : list A) :
  Permutation (a :: l) (JS.sortInsert comparefn a l).
Proof.
  induction l as [| b rest IH]; cbn; [reflexivity |].
  destruct (Rlt_dec 0 (comparefn a b)); [| reflexivity].
  rewrite perm_swap. apply perm_skip. exact IH.
Qed.

Lemma sort_permutation {A : Type} (comparefn : A -> A -> R) (l : list A) :
  Permutation l (JS.sort comparefn l).
Proof.
  induction l as [| a rest IH]; cbn; [reflexivity |].
  rewrite <- sortInsert_permutation. apply perm_skip. exact IH.
Qed.

Lemma sortInsert_by_depth (a : DrawItem.t) (l : list DrawItem.t) :
  StronglySorted farther l ->
  StronglySorted farther
    (JS.sortInsert (fun a b => DrawItem.depth b - DrawItem.depth a) a l).
Proof.
  induction 1 as [| b rest Hrest IH Hb]; cbn.
  - constructor; constructor.
  - destruct (Rlt_dec 0 (DrawItem.depth b - DrawItem.depth a)) as [Hlt | Hge].
    + constructor; [exact IH |].
      eapply Permutation_Forall; [apply sortInsert_permutation |].
      constructor; [unfold farther; lra | exact Hb].
    + constructor; [constructor; assumption |].
      constructor; [unfold farther; lra |].
      eapply Forall_impl; [exact Hb |]. unfold farther. intros c Hc. lra.
Qed.

Lemma sort_by_depth (l : list DrawItem.t) :
  StronglySorted farther (JS.sort (fun a b => DrawItem.depth b - DrawItem.depth a) l).
Proof.
  induction l as [| a rest IH]; cbn; [constructor |].
  apply sortInsert_by_depth. exact IH.
Qed.

(** Two items at depths 50 and 100: the one at depth 100 is sorted first. *)
Example sort_two_depths (near far : DrawItem.t) :
  DrawItem.depth near = 50 -> DrawItem.depth far = 100 ->
  JS.sort (fun a b => DrawItem.depth b - DrawItem.depth a) [near; far] = [far; near].
Proof.
  intros Hnear Hfar. cbn. rewrite Hnear, Hfar.
  destruct (Rlt_dec 0 (100 - 50)); [reflexivity | lra].
Qed.

Lemma StronglySorted_lookup_lt {A : Type} (rel : A -> A -> Prop) (l : list A) :
  StronglySorted rel l ->
  forall (i j : nat) (a b : A),
    l !! i = Some a -> l !! j = Some b -> (i < j)%nat -> rel a b.
Proof.
  induction 1 as [| c rest Hrest IH Hc]; intros i j a b Hi Hj Hlt.
  - discriminate.
  - destruct j as [| j]; [lia |]. cbn in Hj.
    destruct i as [| i]; cbn in Hi.
    + injection Hi as <-. eapply Forall_lookup_1; eassumption.
    + apply (IH i j); [assumption | assumption | lia].
Qed.

Lemma filledPaths_paint (queue : list DrawItem.t) :
  filledPaths (flat_map paintItem queue) = map DrawItem.path queue.
Proof.
  induction queue as [| item rest IH]; [reflexivity |].
  cbn [flat_map map]. unfold filledPaths in *.
  rewrite flat_map_app, IH. reflexivity.
Qed.

Lemma projectCorners_all (corners : list Corner.t) (elevation : R)
  (camera : CameraPose.t) (width height focalLength : R)
  (acc projectedCorners : list ProjectedPoint.t) (total depthTotal : R) :
  projectCorners corners elevation camera width height focalLength acc total
  = Some (projectedCorners, depthTotal) ->
  exists new,
    projectedCorners = acc ++ new
    /\ Forall2 (cornerProjectsTo elevation camera width height focalLength) corners new
    /\ depthTotal = total + fold_right Rplus 0 (map ProjectedPoint.depth new).
Proof.
  revert acc total.
  induction corners as [| corner rest IH]; intros acc total; cbn.
  - intros [= <- <-]. exists []. rewrite app_nil_r. cbn.
    split; [reflexivity | split; [constructor | lra]].
  - destruct (projectPoint _ camera width height focalLength) as [projected |] eqn:Hp;
      [| discriminate].
    intros Hrest. destruct (IH _ _ Hrest) as (new & -> & Hall & ->).
    exists (projected :: new). rewrite <- app_assoc. cbn.
    split; [reflexivity | split; [| lra]].
    constructor; [exact Hp | exact Hall].
Qed.

(** The depth of a draw item is the mean of the depths of the six
    projected corners of its tile. *)
Lemma drawItemOfTile_depth (tile : HexMapTile.t) (index : nat)
  (camera : CameraPose.t) (selectedIndex : nat) (width height focalLength : R)
  (item : DrawItem.t) :
  drawItemOfTile tile index camera selectedIndex width height focalLength = Some item ->
  averagesCorners tile camera width height focalLength item.
Proof.
  unfold drawItemOfTile, averagesCorners.
  destruct (projectCorners _ _ camera width height focalLength [] 0)
    as [[projectedCorners depthTotal] |] eqn:Hpc; [| discriminate].
  apply projectCorners_all in Hpc. destruct Hpc as (new & -> & Hall & ->).
  cbn [app]. destruct new as [| first others]; [discriminate |].
  intros [= <-]. cbn [DrawItem.depth].
  exists (first :: others). split; [exact Hall |].
  unfold mean. rewrite length_map, Rplus_0_l. reflexivity.
Qed.

Lemma buildDrawQueue_items (tiles : list HexMapTile.t) (index : nat)
  (camera : CameraPose.t) (selectedIndex : nat) (width height focalLength : R)
  (drawQueue : list DrawItem.t) (item : DrawItem.t) :
  In item (buildDrawQueue tiles index camera selectedIndex width height
             focalLength drawQueue) ->
  In item drawQueue
  \/ exists tile, In tile tiles
       /\ averagesCorners tile camera width height focalLength item.
Proof.
  revert index drawQueue.
  induction tiles as [| tile rest IH]; intros index drawQueue; cbn.
  - intros Hin. left. exact Hin.
  - destruct (drawItemOfTile tile index camera selectedIndex width height focalLength)
      as [pushed |] eqn:Hitem; intros Hin; apply IH in Hin.
    + destruct Hin as [Hin | (tile' & Hin & Havg)].
      * apply in_app_or in Hin. destruct Hin as [Hin | [<- | []]].
        -- left. exact Hin.
        -- right. exists tile. split; [left; reflexivity |].
           eapply drawItemOfTile_depth. exact Hitem.
      * right. exists tile'. split; [right; exact Hin | exact Havg].
    + destruct Hin as [Hin | (tile' & Hin & Havg)].
      * left. exact Hin.
      * right. exists tile'. split; [right; exact Hin | exact Havg].
Qed.

(** C8: the draw queue of [renderScene], once sorted, is in descending
    order of depth: of two items of different depths the deeper one comes
    first, and the paths are filled in the order of the queue, farther tiles
    first.  The sort keeps the items that were built, and the depth of each
    is the mean of the depths of the six projected corners of a tile. *)
Theorem renderScene_back_to_front (canvas : Canvas.t) (tiles : list HexMapTile.t)
  (camera : CameraPose.t) (selectedIndex : nat) :
  let width := Canvas.width canvas in
  let height := Canvas.height canvas in
  let focalLength := (height * 0.86) / tan (FOV_RAD * 0.5) in
  let queue := sortedDrawQueue canvas tiles camera selectedIndex in
  StronglySorted farther queue
  /\ (forall (i j : nat) (a b : DrawItem.t),
        queue !! i = Some a -> queue !! j = Some b ->
        DrawItem.depth a > DrawItem.depth b -> (i < j)%nat)
  /\ filledPaths (renderScene canvas tiles camera selectedIndex)
     = map DrawItem.path queue
  /\ Permutation
       (buildDrawQueue tiles 0 camera selectedIndex width height focalLength [])
       queue
  /\ (forall item, In item queue ->
        exists tile, In tile tiles
          /\ averagesCorners tile camera width height focalLength item).
Proof.
  cbv zeta.
  assert (Hsorted : StronglySorted farther (sortedDrawQueue canvas tiles camera selectedIndex))
    by apply sort_by_depth.
  assert (Hperm : Permutation
            (buildDrawQueue tiles 0 camera selectedIndex (Canvas.width canvas)
               (Canvas.height canvas)
               (Canvas.height canvas * 0.86 / tan (FOV_RAD * 0.5)) [])
            (sortedDrawQueue canvas tiles camera selectedIndex))
    by apply sort_permutation.
  split; [exact Hsorted |]. split; [| split; [| split; [exact Hperm |]]].
  - intros i j a b Hi Hj Hdepth.
    destruct (Nat.lt_trichotomy i j) as [Hlt | [-> | Hgt]]; [exact Hlt | |].
    + rewrite Hi in Hj. injection Hj as <-. lra.
    + pose proof (StronglySorted_lookup_lt _ _ Hsorted j i b a Hj Hi Hgt) as Hfar.
      unfold farther in Hfar. lra.
  - unfold renderScene, filledPaths. cbv zeta.
    rewrite !flat_map_app. cbn [flat_map app].
    rewrite app_nil_r. apply filledPaths_paint.
  - intros item Hin.
    apply Permutation_sym in Hperm.
    apply (Permutation_in _ Hperm) in Hin.
    apply buildDrawQueue_items in Hin. destruct Hin as [[] | Hin]. exact Hin.
Qed.

End DrawOrder.

Section InitialPose.

Lemma sum_positions (tiles : list HexMapTile.t) (sumX sumZ : R) :
  fold_left (fun '(sumX, sumZ) tile =>
               (sumX + HexMapTile.x tile, sumZ + HexMapTile.y tile))
            tiles (sumX, sumZ)
  = (sumX + fold_right Rplus 0 (map HexMapTile.x tiles),
     sumZ + fold_right Rplus 0 (map HexMapTile.y tiles)).
Proof.
  revert sumX sumZ.
  induction tiles as [| tile rest IH]; intros sumX sumZ; cbn.
  - f_equal; ring.
  - rewrite IH. f_equal; ring.
Qed.

(** C9: on a list with at least one tile, the initial camera stands at the
    centroid of the tile positions (the mean of the [x] and the mean of the
    [y] of the tiles), at the ground height sampled there plus
    [HUMAN_EYE_HEIGHT], with yaw [- PI * 0.12] and pitch -0.38; on the empty
    list it is the default pose: the origin, height [HUMAN_EYE_HEIGHT], yaw
    0, pitch -0.35. *)
Theorem initialCamera_at_centroid :
  initialCamera [] = CameraPose.mk 0 HUMAN_EYE_HEIGHT 0 0 (-0.35)
  /\ forall (tile : HexMapTile.t) (rest : list HexMapTile.t),
       let tiles := tile :: rest in
       let centroidX := mean (map HexMapTile.x tiles) in
       let centroidZ := mean (map HexMapTile.y tiles) in
       initialCamera tiles
       = CameraPose.mk centroidX
           (sampleGroundHeight tiles centroidX centroidZ + HUMAN_EYE_HEIGHT)
           centroidZ (- PI * 0.12) (-0.38).
Proof.
  split; [reflexivity |].
  intros tile rest tiles centroidX centroidZ.
  unfold initialCamera. cbn [length Nat.eqb].
  fold tiles. rewrite (sum_positions tiles 0 0), !Rplus_0_l.
  unfold centroidX, centroidZ, mean. rewrite !length_map. reflexivity.
Qed.

End InitialPose.

Section HexGeometry.
Context `{Host}.

(** The two loops build the same hexagon, vertex by vertex: the strings
    pushed by [hexPolygonPoints] are the formatted corners pushed by
    [hexCorners]. *)
Lemma hexPolygonPoints_steps (x y size : R) (indices : list nat)
  (corners : list Corner.t) :
  fold_left (WorldMap.hexPolygonPointsStep x y size) indices
            (map formatCorner corners)
  = map formatCorner (fold_left (hexCornersStep x y size) indices corners).
Proof.
  revert corners.
  induction indices as [| i rest IH]; intros corners; cbn [fold_left]; [reflexivity |].
  rewrite <- IH. f_equal.
  unfold WorldMap.hexPolygonPointsStep, hexCornersStep.
  rewrite map_app. reflexivity.
Qed.

(** C10: for every centre and size, the string of [hexPolygonPoints] is
    the six vertices of [hexCorners] at the same centre and size, each
    written [x,z] with two decimals by [toFixed], in the same order and
    separated by single spaces. *)
Theorem hexPolygonPoints_formats_hexCorners (x y size : R) :
  WorldMap.hexPolygonPoints x y size
  = String.concat " " (map formatCorner (hexCorners x y size))
  /\ length (hexCorners x y size) = 6%nat.
Proof.
  split; [| reflexivity].
  unfold WorldMap.hexPolygonPoints, hexCorners.
  rewrite <- hexPolygonPoints_steps. reflexivity.
Qed.

End HexGeometry.

(** ** Further properties of the geometry helpers *)

Section Helpers.
Context `{Host}.


(** A channel that [parseInt] could read leaves [tintHex] as a whole
    number from 0 to 255. *)
Lemma tint_channel_bounded (v : R) :
  exists k : Z, (0 <= k <= 255)%Z /\ clamp (JS.round v) 0 255 = IZR k.
Proof.
  unfold JS.round. set (n := Int_part (v + / 2)).
  unfold clamp, JS.min, JS.max.
  destruct (Rle_dec 0 (IZR n)) as [H0 | H0].
  - apply le_IZR in H0.
    destruct (Rle_dec 255 (IZR n)) as [H1 | H1].
    + exists 255%Z. split; [lia | reflexivity].
    + exists n. split; [| reflexivity].
      split; [exact H0 |].
      destruct (Z_le_gt_dec n 255) as [Hle | Hgt]; [exact Hle |].
      exfalso. apply H1. apply IZR_le. lia.
  - destruct (Rle_dec 255 0) as [H1 | H1]; [lra |].
    exists 0%Z. split; [lia | reflexivity].
Qed.

End Helpers.

(** * Further properties of the code *)

Section Angles.



(** X3: with [min <= max], [clamp] is the identity inside the interval,
    [min] below it and [max] above it. *)
Theorem clamp_cases (value min max : R) :
  min <= max ->
  (value < min -> clamp value min max = min)
  /\ (min <= value <= max -> clamp value min max = value)
  /\ (max < value -> clamp value min max = max).
Proof.
  intros Hmm. unfold clamp, JS.min, JS.max.
  repeat split; intros Hv; repeat (destruct (Rle_dec _ _); try lra).
Qed.

Lemma clamp_cases_witness :
  (2 < -1.2 -> clamp 2 (-1.2) 0.75 = -1.2)
  /\ (-1.2 <= 2 <= 0.75 -> clamp 2 (-1.2) 0.75 = 2)
  /\ (0.75 < 2 -> clamp 2 (-1.2) 0.75 = 0.75).
Proof.
  apply (clamp_cases 2 (-1.2) 0.75). lra.
Defined.

End Angles.

Section Colours.
Context `{Host}.

Lemma Int_part_IZR (k : Z) : Int_part (IZR k) = k.
Proof. symmetry. apply Int_part_spec. lra. Qed.

Lemma hex_byte_two_digits (k : Z) :
  (0 <= k <= 255)%Z ->
  twoHexDigits
    (JS.padStart2 (HexadecimalString.NilZero.string_of_uint (N.to_hex_uint (Z.to_N k))))
  = true.
Proof.
  intros Hk.
  assert (Hall : forallb (fun n =>
            twoHexDigits (JS.padStart2
              (HexadecimalString.NilZero.string_of_uint (N.to_hex_uint (N.of_nat n)))))
            (seq 0 256) = true) by (vm_compute; reflexivity).
  rewrite forallb_forall in Hall.
  replace (Z.to_N k) with (N.of_nat (Z.to_nat k)) by lia.
  apply Hall. apply in_seq. lia.
Qed.

Lemma tintChannel_textOf (factor : R) (channel : option Z) :
  channelTextOf channel (tintChannel factor channel).
Proof.
  destruct channel as [c |]; [| reflexivity].
  unfold channelTextOf, tintChannel, JS.toString16.
  destruct (tint_channel_bounded (IZR c * factor)) as (k & Hk & ->).
  rewrite Int_part_IZR. apply hex_byte_two_digits. exact Hk.
Qed.

Lemma tintChannels_textOf (factor : R) (channels : list (option Z)) :
  Forall2 channelTextOf channels (map (tintChannel factor) channels).
Proof.
  induction channels as [| channel rest IH]; cbn; constructor;
    [apply tintChannel_textOf | exact IH].
Qed.

Lemma length_list_ascii_of_string (s : string) :
  length (list_ascii_of_string s) = String.length s.
Proof. induction s as [| c s IH]; cbn; [reflexivity | now rewrite IH]. Qed.

Lemma parsedChannels_three (hex : string) : length (parsedChannels hex) = 3%nat.
Proof.
  unfold parsedChannels. cbv zeta.
  destruct (Nat.eqb (String.length (JS.removeFirstHash hex)) 3) eqn:Hlen; [| reflexivity].
  apply Nat.eqb_eq in Hlen.
  rewrite length_map, length_list_ascii_of_string. exact Hlen.
Qed.

(** X6: whatever the colour string and the amount, [tintHex] returns ["#"]
    followed by the texts of exactly three channels, one for each channel
    read from the string: two lowercase hexadecimal digits for a channel
    that [parseInt] could read, ["NaN"] for one that it could not. *)
Theorem tintHex_format (hex : string) (amount : R) :
  exists texts,
    tintHex hex amount = String "#" (String.concat "" texts)
    /\ length (parsedChannels hex) = 3%nat
    /\ Forall2 channelTextOf (parsedChannels hex) texts.
Proof.
  exists (map (tintChannel (clamp (1 + amount) 0.2 1.9)) (parsedChannels hex)).
  split; [reflexivity |]. split; [apply parsedChannels_three |].
  apply tintChannels_textOf.
Qed.

End Colours.

Section Ground.

Lemma findNearestTileIndex_nonempty (tile : HexMapTile.t) (rest : list HexMapTile.t)
  (x z : R) :
  firstNearest (tile :: rest) x z (findNearestTileIndex (tile :: rest) x z).
Proof.
  unfold findNearestTileIndex. cbn [length Nat.eqb].
  apply (nearestLoop_invariant x z (tile :: rest) [] 0 None).
  - split; reflexivity.
  - discriminate.
Qed.

(** X7: on a list with at least one tile, [findNearestTileIndex] is an
    index of the list and [sampleGroundHeight] is the height of the tile at
    that index times [HEIGHT_SCALE]; no tile of the list is nearer to
    [(x, z)] than that tile.  On the empty list the ground height is 0. *)
Theorem sampleGroundHeight_of_nearest (x z : R) :
  sampleGroundHeight [] x z = 0
  /\ forall (tile : HexMapTile.t) (rest : list HexMapTile.t),
       let tiles := tile :: rest in
       exists nearest,
         tiles !! findNearestTileIndex tiles x z = Some nearest
         /\ (findNearestTileIndex tiles x z < length tiles)%nat
         /\ sampleGroundHeight tiles x z
            = TerrainCell.height (HexMapTile.terrain nearest) * HEIGHT_SCALE
         /\ Forall (fun other =>
                      squaredDistance nearest x z <= squaredDistance other x z)
                   tiles.
Proof.
  split; [reflexivity |]. intros tile rest tiles.
  destruct (findNearestTileIndex_nonempty tile rest x z) as (nearest & Hn & Hmin & _).
  fold tiles in Hn, Hmin.
  exists nearest. split; [exact Hn |]. split; [eapply lookup_lt_Some; exact Hn |].
  split.
  - unfold sampleGroundHeight. cbv zeta. rewrite Hn. reflexivity.
  - apply List.Forall_forall. intros other Hin.
    apply list_elem_of_In, list_elem_of_lookup in Hin. destruct Hin as [j Hj].
    eapply Hmin. exact Hj.
Qed.

(** X8: when the heights of all the tiles of a list with at least one tile
    lie between [lo] and [hi], the ground height sampled anywhere lies
    between [lo * HEIGHT_SCALE] and [hi * HEIGHT_SCALE]. *)
Theorem sampleGroundHeight_bounds (tile : HexMapTile.t) (rest : list HexMapTile.t)
  (x z lo hi : R) :
  Forall (fun t => lo <= TerrainCell.height (HexMapTile.terrain t) <= hi)
         (tile :: rest) ->
  lo * HEIGHT_SCALE <= sampleGroundHeight (tile :: rest) x z <= hi * HEIGHT_SCALE.
Proof.
  intros Hall.
  destruct (findNearestTileIndex_nonempty tile rest x z) as (nearest & Hn & _).
  unfold sampleGroundHeight. cbv zeta. rewrite Hn.
  rewrite List.Forall_forall in Hall.
  assert (Hin : In nearest (tile :: rest)).
  { apply list_elem_of_In, list_elem_of_lookup. eexists. exact Hn. }
  specialize (Hall nearest Hin). unfold HEIGHT_SCALE. lra.
Qed.

Lemma sampleGroundHeight_bounds_witness :
  0 * HEIGHT_SCALE
  <= sampleGroundHeight [tileAt 0 0; tileAt 100 100] 1 1
  <= 1 * HEIGHT_SCALE.
Proof.
  apply (sampleGroundHeight_bounds (tileAt 0 0) [tileAt 100 100] 1 1 0 1).
  repeat constructor; cbn; lra.
Defined.

(** X9: the camera that the effect on [tiles] stores satisfies the
    orientation invariant and stands at the ground height under it plus
    [HUMAN_EYE_HEIGHT], for the empty list too; the HUD it sets shows that
    camera and the ground under it, the camera height being that ground plus
    [HUMAN_EYE_HEIGHT], and the index it selects is the nearest tile to the
    camera. *)
Theorem tilesEffect_initial_pose (tiles : list HexMapTile.t) :
  let '(camera, nearestIndex, hud) := tilesEffect tiles in
  camera = initialCamera tiles
  /\ orientationInvariant camera
  /\ CameraPose.y camera
     = sampleGroundHeight tiles (CameraPose.x camera) (CameraPose.z camera)
       + HUMAN_EYE_HEIGHT
  /\ CameraHud.pose hud = camera
  /\ CameraHud.ground hud
     = sampleGroundHeight tiles (CameraPose.x camera) (CameraPose.z camera)
  /\ CameraPose.y camera = CameraHud.ground hud + HUMAN_EYE_HEIGHT
  /\ nearestIndex
     = findNearestTileIndex tiles (CameraPose.x camera) (CameraPose.z camera).
Proof.
  unfold tilesEffect. cbv zeta.
  assert (Hy : CameraPose.y (initialCamera tiles)
               = sampleGroundHeight tiles (CameraPose.x (initialCamera tiles))
                   (CameraPose.z (initialCamera tiles)) + HUMAN_EYE_HEIGHT).
  { destruct tiles as [| tile rest].
    - cbn. unfold sampleGroundHeight. cbn. lra.
    - unfold initialCamera. cbn [length Nat.eqb].
      destruct (fold_left _ _ _) as [sumX sumZ]. reflexivity. }
  assert (Ho : orientationInvariant (initialCamera tiles)).
  { pose proof PI_RGT_0 as Hpi.
    destruct tiles as [| tile rest].
    - unfold orientationInvariant. cbn. lra.
    - unfold initialCamera. cbn [length Nat.eqb].
      destruct (fold_left _ _ _) as [sumX sumZ].
      unfold orientationInvariant. cbn. lra. }
  split; [reflexivity |]. split; [exact Ho |]. split; [exact Hy |].
  split; [reflexivity |]. split; [reflexivity |]. split; [| reflexivity].
  cbn [CameraHud.ground]. exact Hy.
Qed.

End Ground.

Section Movement.

Lemma has_empty (code : string) : has ∅ code = false.
Proof. unfold has. apply bool_decide_eq_false. set_solver. Qed.

Lemma heldInput_empty : heldInput ∅ = (0, 0).
Proof. unfold heldInput. rewrite !has_empty. reflexivity. Qed.

(** [moveCamera] in terms of the input and the speed read off the keys. *)
Lemma moveCamera_held (mode : ExplorerMode) (keys : gset string) (deltaSeconds : R)
  (camera : CameraPose.t) :
  moveCamera mode keys deltaSeconds camera
  = let inputX := fst (heldInput keys) in
    let inputZ := snd (heldInput keys) in
    let inputLength := JS.hypot inputX inputZ in
    if Rgt_dec inputLength 0 then
      CameraPose.mk
        (CameraPose.x camera
         + (inputX / inputLength * cos (CameraPose.yaw camera)
            + inputZ / inputLength * sin (CameraPose.yaw camera))
           * heldSpeed mode keys * deltaSeconds)
        (CameraPose.y camera)
        (CameraPose.z camera
         + (inputZ / inputLength * cos (CameraPose.yaw camera)
            - inputX / inputLength * sin (CameraPose.yaw camera))
           * heldSpeed mode keys * deltaSeconds)
        (CameraPose.yaw camera)
        (CameraPose.pitch camera)
    else camera.
Proof. reflexivity. Qed.

Lemma hypot_zero : JS.hypot 0 0 = 0.
Proof. unfold JS.hypot. rewrite Rmult_0_l, Rplus_0_l. apply sqrt_0. Qed.

Lemma hypot_positive (a b : R) : (a, b) <> (0, 0) -> 0 < JS.hypot a b.
Proof.
  intros Hne. unfold JS.hypot. apply sqrt_lt_R0.
  destruct (Req_dec_T a 0) as [-> | Ha]; [| nra].
  destruct (Req_dec_T b 0) as [-> | Hb]; [contradiction | nra].
Qed.

Lemma hypot_square (a b : R) : JS.hypot a b * JS.hypot a b = a * a + b * b.
Proof. unfold JS.hypot. apply sqrt_sqrt. nra. Qed.

Lemma moveCamera_rest (mode : ExplorerMode) (keys : gset string) (deltaSeconds : R)
  (camera : CameraPose.t) :
  heldInput keys = (0, 0) -> moveCamera mode keys deltaSeconds camera = camera.
Proof.
  intros Hin. rewrite moveCamera_held, Hin. cbn [fst snd]. rewrite hypot_zero.
  destruct (Rgt_dec 0 0); [lra | reflexivity].
Qed.

Lemma moveCamera_step (mode : ExplorerMode) (keys : gset string) (deltaSeconds : R)
  (camera : CameraPose.t) :
  heldInput keys <> (0, 0) ->
  let moved := moveCamera mode keys deltaSeconds camera in
  (CameraPose.x moved - CameraPose.x camera) * (CameraPose.x moved - CameraPose.x camera)
  + (CameraPose.z moved - CameraPose.z camera) * (CameraPose.z moved - CameraPose.z camera)
  = (heldSpeed mode keys * deltaSeconds) * (heldSpeed mode keys * deltaSeconds).
Proof.
  intros Hne. cbv zeta. rewrite moveCamera_held. cbv zeta.
  destruct (heldInput keys) as [inputX inputZ]. cbn [fst snd].
  pose proof (hypot_positive inputX inputZ Hne) as Hpos.
  pose proof (hypot_square inputX inputZ) as Hsq.
  destruct (Rgt_dec (JS.hypot inputX inputZ) 0) as [_ | Hn]; [| lra].
  cbn [CameraPose.x CameraPose.z].
  set (len := JS.hypot inputX inputZ) in *.
  set (c := cos (CameraPose.yaw camera)). set (sn := sin (CameraPose.yaw camera)).
  set (v := heldSpeed mode keys * deltaSeconds).
  assert (Hunit : inputX / len * (inputX / len) + inputZ / len * (inputZ / len) = 1).
  { replace (inputX / len * (inputX / len) + inputZ / len * (inputZ / len))
      with ((inputX * inputX + inputZ * inputZ) / (len * len)) by (field; lra).
    rewrite <- Hsq. field. lra. }
  assert (Htrig : sn * sn + c * c = 1) by apply sin2_cos2.
  set (nx := inputX / len) in *. set (nz := inputZ / len) in *.
  replace (heldSpeed mode keys * deltaSeconds) with v by reflexivity.
  transitivity ((nx * nx + nz * nz) * (sn * sn + c * c) * (v * v)); [unfold v; ring |].
  rewrite Hunit, Htrig. ring.
Qed.

Lemma heldSpeed_bounds (mode : ExplorerMode) (keys : gset string) :
  0 < heldSpeed mode keys <= 59.2.
Proof.
  unfold heldSpeed, FLY_SPEED, WALK_SPEED.
  destruct mode; destruct (has keys "ShiftLeft" || has keys "ShiftRight"); lra.
Qed.

Lemma moveCamera_keeps (mode : ExplorerMode) (keys : gset string) (deltaSeconds : R)
  (camera : CameraPose.t) :
  CameraPose.y (moveCamera mode keys deltaSeconds camera) = CameraPose.y camera
  /\ CameraPose.yaw (moveCamera mode keys deltaSeconds camera) = CameraPose.yaw camera
  /\ CameraPose.pitch (moveCamera mode keys deltaSeconds camera)
     = CameraPose.pitch camera.
Proof.
  rewrite moveCamera_held. cbv zeta.
  destruct (Rgt_dec _ 0); repeat split; reflexivity.
Qed.

(** X10: the planar movement of [tick] changes neither the height nor the
    orientation of the camera, and with no net direction held (no direction
    key, or opposite keys that cancel) it leaves the camera where it is,
    whatever the mode, the sprint key and the elapsed time. *)
Theorem moveCamera_without_direction (mode : ExplorerMode) (keys : gset string)
  (deltaSeconds : R) (camera : CameraPose.t) :
  let moved := moveCamera mode keys deltaSeconds camera in
  CameraPose.y moved = CameraPose.y camera
  /\ CameraPose.yaw moved = CameraPose.yaw camera
  /\ CameraPose.pitch moved = CameraPose.pitch camera
  /\ (heldInput keys = (0, 0) -> moved = camera)
  /\ heldInput ∅ = (0, 0)
  /\ heldInput {["KeyW"; "KeyS"; "ArrowLeft"; "KeyD"; "ShiftLeft"]} = (0, 0).
Proof.
  cbv zeta. destruct (moveCamera_keeps mode keys deltaSeconds camera) as (Hy & Hyaw & Hpitch).
  split; [exact Hy |]. split; [exact Hyaw |]. split; [exact Hpitch |].
  split; [apply moveCamera_rest |]. split; [apply heldInput_empty |].
  unfold heldInput.
  replace (has {["KeyW"; "KeyS"; "ArrowLeft"; "KeyD"; "ShiftLeft"]} "KeyW")
    with true by (vm_compute; reflexivity).
  replace (has {["KeyW"; "KeyS"; "ArrowLeft"; "KeyD"; "ShiftLeft"]} "KeyS")
    with true by (vm_compute; reflexivity).
  replace (has {["KeyW"; "KeyS"; "ArrowLeft"; "KeyD"; "ShiftLeft"]} "KeyA")
    with false by (vm_compute; reflexivity).
  replace (has {["KeyW"; "KeyS"; "ArrowLeft"; "KeyD"; "ShiftLeft"]} "ArrowLeft")
    with true by (vm_compute; reflexivity).
  replace (has {["KeyW"; "KeyS"; "ArrowLeft"; "KeyD"; "ShiftLeft"]} "KeyD")
    with true by (vm_compute; reflexivity).
  cbn. f_equal; lra.
Qed.

(** X11: when the clock has not gone back since the last frame, the
    elapsed time that [tick] uses lies between 0 and 0.05 seconds and the
    planar step of the frame is at most 3 units long, in either mode, with
    or without the sprint key. *)
Theorem tick_step_bounded (mode : ExplorerMode) (keys : gset string)
  (lastTime now : R) (camera : CameraPose.t) :
  lastTime <= now ->
  let deltaSeconds := JS.min 0.05 ((now - lastTime) / 1000) in
  let moved := moveCamera mode keys deltaSeconds camera in
  0 <= deltaSeconds <= 0.05
  /\ (CameraPose.x moved - CameraPose.x camera)
     * (CameraPose.x moved - CameraPose.x camera)
     + (CameraPose.z moved - CameraPose.z camera)
       * (CameraPose.z moved - CameraPose.z camera)
     <= 3 * 3.
Proof.
  intros Htime. cbv zeta.
  set (deltaSeconds := JS.min 0.05 ((now - lastTime) / 1000)).
  assert (Hdt : 0 <= deltaSeconds <= 0.05).
  { unfold deltaSeconds. split; [apply min_glb; lra | apply min_le_l]. }
  split; [exact Hdt |].
  destruct (heldSpeed_bounds mode keys) as [Hv0 Hv1].
  assert (Hprod : 0 <= heldSpeed mode keys * deltaSeconds <= 2.96) by nra.
  destruct (Req_dec_T (fst (heldInput keys)) 0) as [Hx | Hx].
  - destruct (Req_dec_T (snd (heldInput keys)) 0) as [Hz | Hz].
    + rewrite moveCamera_rest; [nra |].
      destruct (heldInput keys); cbn in *; congruence.
    + rewrite moveCamera_step; [nra |].
      intros Heq. rewrite Heq in Hz. cbn in Hz. lra.
  - rewrite moveCamera_step; [nra |].
    intros Heq. rewrite Heq in Hx. cbn in Hx. lra.
Qed.

Lemma tick_step_bounded_witness :
  let deltaSeconds := JS.min 0.05 ((1016 - 1000) / 1000) in
  let camera := CameraPose.mk 0 1.72 0 0 (-0.35) in
  let moved := moveCamera fly {["KeyW"; "ShiftLeft"]} deltaSeconds camera in
  0 <= deltaSeconds <= 0.05
  /\ (CameraPose.x moved - CameraPose.x camera)
     * (CameraPose.x moved - CameraPose.x camera)
     + (CameraPose.z moved - CameraPose.z camera)
       * (CameraPose.z moved - CameraPose.z camera)
     <= 3 * 3.
Proof.
  apply (tick_step_bounded fly {["KeyW"; "ShiftLeft"]} 1000 1016
           (CameraPose.mk 0 1.72 0 0 (-0.35))).
  lra.
Defined.

End Movement.

Section Frames.
Context `{Host}.

(** X12: the HUD throttle of [tick].  The accumulator left behind is below
    [CAMERA_UPDATE_MS]; the HUD is set exactly when the time accumulated
    reaches [CAMERA_UPDATE_MS], and the accumulator then restarts from 0; the
    HUD set shows the camera of the frame, the ground under it and the tile
    nearest to it. *)
Theorem tick_hud_throttle (mode : ExplorerMode) (tiles : list HexMapTile.t)
  (keys : gset string) (devicePixelRatio : R) (st : Loop.t) (now : R) :
  let deltaSeconds := JS.min 0.05 ((now - Loop.lastTime st) / 1000) in
  let accumulated := Loop.hudAccumulator st + deltaSeconds * 1000 in
  let frame := tick mode tiles keys devicePixelRatio st now in
  let camera := Loop.camera (Frame.state frame) in
  Loop.hudAccumulator (Frame.state frame) < CAMERA_UPDATE_MS
  /\ Loop.lastTime (Frame.state frame) = now
  /\ match Frame.hud frame with
     | Some (selected, hud) =>
         accumulated >= CAMERA_UPDATE_MS
         /\ Loop.hudAccumulator (Frame.state frame) = 0
         /\ CameraHud.pose hud = camera
         /\ CameraHud.ground hud
            = sampleGroundHeight tiles (CameraPose.x camera) (CameraPose.z camera)
         /\ selected
            = findNearestTileIndex tiles (CameraPose.x camera) (CameraPose.z camera)
     | None =>
         accumulated < CAMERA_UPDATE_MS
         /\ Loop.hudAccumulator (Frame.state frame) = accumulated
     end.
Proof.
  cbv zeta. unfold tick.
  destruct (Rge_dec _ CAMERA_UPDATE_MS) as [Hge | Hlt]; cbn.
  - split; [unfold CAMERA_UPDATE_MS; lra |]. split; [reflexivity |].
    split; [exact Hge |]. repeat split; reflexivity.
  - split; [lra |]. split; [reflexivity |]. split; [lra | reflexivity].
Qed.

Lemma settleHeight_rest (deltaSeconds ground y : R) :
  ground + 0.6 <= y -> settleHeight fly ∅ deltaSeconds ground y = y.
Proof.
  intros Hy. unfold settleHeight. rewrite !has_empty. cbn.
  unfold JS.max. destruct (Rle_dec _ _); lra.
Qed.

(** X13: hovering is stable.  After the effect on [mode] has set the
    height, a [tick] in that mode with no key held leaves the position of
    the camera, height included, as the effect set it. *)
Theorem tick_without_keys_keeps_position (mode : ExplorerMode)
  (tiles : list HexMapTile.t) (devicePixelRatio : R) (st : Loop.t) (now : R) :
  let settled := modeEffect mode tiles (Loop.camera st) in
  let frame :=
    tick mode tiles ∅ devicePixelRatio
         (Loop.mk settled (Loop.canvas st) (Loop.lastTime st) (Loop.hudAccumulator st))
         now in
  let camera := Loop.camera (Frame.state frame) in
  CameraPose.x camera = CameraPose.x (Loop.camera st)
  /\ CameraPose.z camera = CameraPose.z (Loop.camera st)
  /\ CameraPose.y camera = CameraPose.y settled.
Proof.
  cbv zeta. unfold tick. cbn [Loop.camera Loop.lastTime Loop.hudAccumulator Loop.canvas].
  rewrite moveCamera_rest by apply heldInput_empty.
  assert (Hy : settleHeight mode ∅
                 (JS.min 0.05 ((now - Loop.lastTime st) / 1000))
                 (sampleGroundHeight tiles
                    (CameraPose.x (modeEffect mode tiles (Loop.camera st)))
                    (CameraPose.z (modeEffect mode tiles (Loop.camera st))))
                 (CameraPose.y (modeEffect mode tiles (Loop.camera st)))
               = CameraPose.y (modeEffect mode tiles (Loop.camera st))).
  { destruct mode.
    - reflexivity.
    - apply settleHeight_rest. unfold modeEffect. cbn.
      pose proof (max_ge_r (CameraPose.y (Loop.camera st))
                    (sampleGroundHeight tiles (CameraPose.x (Loop.camera st))
                       (CameraPose.z (Loop.camera st)) + HUMAN_EYE_HEIGHT + 5)) as Hmax.
      unfold HUMAN_EYE_HEIGHT in *. lra. }
  destruct (Rge_dec _ CAMERA_UPDATE_MS);
    cbn [Frame.state Loop.camera CameraPose.x CameraPose.y CameraPose.z];
    (split; [reflexivity | split; [reflexivity | exact Hy]]).
Qed.



End Frames.

Section CanvasSize.

Lemma applyCanvasSize_sets (devicePixelRatio : R) (canvas : Canvas.t) :
  applyCanvasSize devicePixelRatio canvas
  = let ratio := if Req_dec_T devicePixelRatio 0 then 1 else devicePixelRatio in
    Canvas.mk (Canvas.clientWidth canvas) (Canvas.clientHeight canvas)
      (JS.max 1 (JS.floor (Canvas.clientWidth canvas * ratio)))
      (JS.max 1 (JS.floor (Canvas.clientHeight canvas * ratio))).
Proof.
  unfold applyCanvasSize. cbv zeta. destruct canvas as [cw ch w h]. cbn.
  destruct (Req_dec_T w _) as [-> | Hw]; [| reflexivity].
  destruct (Req_dec_T h _) as [-> | Hh]; reflexivity.
Qed.

Lemma max_one_floor (x : R) :
  exists n : Z, (1 <= n)%Z /\ JS.max 1 (JS.floor x) = IZR n.
Proof.
  unfold JS.max, JS.floor. destruct (Rle_dec 1 (IZR (Int_part x))) as [Hle | Hgt].
  - exists (Int_part x). split; [apply le_IZR; exact Hle | reflexivity].
  - exists 1%Z. split; [lia | reflexivity].
Qed.

(** X14: [applyCanvasSize] leaves the displayed size alone and sets the
    buffer width to [Math.max(1, Math.floor(clientWidth * ratio))] and the
    height likewise, where [ratio] is the device pixel ratio, or 1 when that
    is 0, whatever the buffer size was; these are whole numbers, at least 1,
    and a second call with the same ratio changes nothing. *)
Theorem applyCanvasSize_stable (devicePixelRatio : R) (canvas : Canvas.t) :
  let ratio := if Req_dec_T devicePixelRatio 0 then 1 else devicePixelRatio in
  let sized := applyCanvasSize devicePixelRatio canvas in
  Canvas.width sized = JS.max 1 (JS.floor (Canvas.clientWidth canvas * ratio))
  /\ Canvas.height sized = JS.max 1 (JS.floor (Canvas.clientHeight canvas * ratio))
  /\ (exists w h : Z,
        (1 <= w)%Z /\ (1 <= h)%Z
        /\ Canvas.width sized = IZR w /\ Canvas.height sized = IZR h)
  /\ Canvas.clientWidth sized = Canvas.clientWidth canvas
  /\ Canvas.clientHeight sized = Canvas.clientHeight canvas
  /\ applyCanvasSize devicePixelRatio sized = sized.
Proof.
  cbv zeta. rewrite (applyCanvasSize_sets devicePixelRatio (applyCanvasSize _ _)).
  rewrite !applyCanvasSize_sets. cbv zeta. cbn.
  split; [reflexivity |]. split; [reflexivity |].
  split; [| repeat split; reflexivity].
  destruct (max_one_floor
              (Canvas.clientWidth canvas
               * (if Req_dec_T devicePixelRatio 0 then 1 else devicePixelRatio)))
    as (w & Hw & ->).
  destruct (max_one_floor
              (Canvas.clientHeight canvas
               * (if Req_dec_T devicePixelRatio 0 then 1 else devicePixelRatio)))
    as (h & Hh & ->).
  exists w, h. repeat split; assumption.
Qed.

End CanvasSize.

Section Keys.

(** X15: the toggle key is never held: if ["KeyF"] is not in the set of
    held keys, no key-down, key-up or blur puts it there. *)
Theorem keyF_never_held (input : Input.t) (event : KeyboardEvent.t) :
  "KeyF" ∉ Input.keys input ->
  ("KeyF" ∉ Input.keys (fst (onKeyDown input event)))
  /\ ("KeyF" ∉ Input.keys (onKeyUp input event))
  /\ ("KeyF" ∉ Input.keys (onBlur input)).
Proof.
  intros Hnot. split; [| split].
  - unfold onKeyDown. destruct (KeyboardEvent.repeat event); [exact Hnot |].
    destruct (String.eqb (KeyboardEvent.code event) "KeyF") eqn:Hcode; [exact Hnot |].
    apply String.eqb_neq in Hcode. cbn. set_solver.
  - cbn. set_solver.
  - cbn. set_solver.
Qed.

Lemma keyF_never_held_witness :
  ("KeyF" ∉ Input.keys
              (fst (onKeyDown (Input.mk walk ∅ (Drag.mk false (-1) 0 0))
                              (KeyboardEvent.mk "KeyF" false))))
  /\ ("KeyF" ∉ Input.keys
                 (onKeyUp (Input.mk walk ∅ (Drag.mk false (-1) 0 0))
                          (KeyboardEvent.mk "KeyF" false)))
  /\ ("KeyF" ∉ Input.keys (onBlur (Input.mk walk ∅ (Drag.mk false (-1) 0 0)))).
Proof.
  apply (keyF_never_held (Input.mk walk ∅ (Drag.mk false (-1) 0 0))
                         (KeyboardEvent.mk "KeyF" false)).
  cbn. set_solver.
Defined.

(** X16: a key that was not held, pressed and then released, leaves the
    set of held keys as it was; in between it is held, unless the event is
    an auto-repeat or the key is the toggle key. *)
Theorem key_press_release (input : Input.t) (event : KeyboardEvent.t) (repeated : bool) :
  KeyboardEvent.code event ∉ Input.keys input ->
  let pressed := fst (onKeyDown input event) in
  let released :=
    onKeyUp pressed (KeyboardEvent.mk (KeyboardEvent.code event) repeated) in
  Input.keys released = Input.keys input
  /\ (KeyboardEvent.repeat event = false ->
      KeyboardEvent.code event <> "KeyF"%string ->
      KeyboardEvent.code event ∈ Input.keys pressed).
Proof.
  intros Hnot. cbv zeta. unfold onKeyDown, onKeyUp.
  destruct (KeyboardEvent.repeat event).
  - cbn. split; [set_solver | discriminate].
  - destruct (String.eqb (KeyboardEvent.code event) "KeyF") eqn:Hcode.
    + apply String.eqb_eq in Hcode. cbn. split; [set_solver | congruence].
    + cbn. split; [set_solver | intros _ _; set_solver].
Qed.

Lemma key_press_release_witness :
  let input := Input.mk walk ∅ (Drag.mk false (-1) 0 0) in
  let event := KeyboardEvent.mk "KeyW" false in
  let pressed := fst (onKeyDown input event) in
  let released := onKeyUp pressed (KeyboardEvent.mk (KeyboardEvent.code event) false) in
  Input.keys released = Input.keys input
  /\ (KeyboardEvent.repeat event = false ->
      KeyboardEvent.code event <> "KeyF"%string ->
      KeyboardEvent.code event ∈ Input.keys pressed).
Proof.
  apply (key_press_release (Input.mk walk ∅ (Drag.mk false (-1) 0 0))
                           (KeyboardEvent.mk "KeyW" false) false).
  cbn. set_solver.
Defined.

(** X17: one press of the toggle key switches the mode and leaves the held
    keys and the drag alone; a second press restores the input state; an
    auto-repeat of any key changes nothing. *)
Theorem keyF_toggles (input : Input.t) (code : string) :
  let press := KeyboardEvent.mk "KeyF" false in
  let once := fst (onKeyDown input press) in
  Input.mode once = toggleMode (Input.mode input)
  /\ Input.keys once = Input.keys input
  /\ Input.drag once = Input.drag input
  /\ fst (onKeyDown once press) = input
  /\ fst (onKeyDown input (KeyboardEvent.mk code true)) = input.
Proof.
  cbv zeta. destruct input as [mode keys drag]. cbn.
  repeat split. destruct mode; reflexivity.
Qed.

(** X18: after a blur nothing moves: whatever the mode and the elapsed
    time the planar movement leaves the camera where it is, and every
    pointer move is ignored. *)
Theorem onBlur_stops_input (input : Input.t) (mode : ExplorerMode)
  (deltaSeconds : R) (camera : CameraPose.t) (event : PointerEvent.t) :
  let blurred := onBlur input in
  Input.keys blurred = ∅
  /\ moveCamera mode (Input.keys blurred) deltaSeconds camera = camera
  /\ handlePointerMove (Input.drag blurred) camera event
     = (Input.drag blurred, camera).
Proof.
  cbv zeta. unfold onBlur. cbn [Input.keys Input.drag].
  split; [reflexivity |]. split.
  - apply moveCamera_rest, heldInput_empty.
  - reflexivity.
Qed.

End Keys.

Section Pointer.

(** X19: the release of the pointer that holds the drag ends it: every
    pointer move after it, of whatever pointer, leaves the camera and the
    drag record as they are. *)
Theorem handlePointerUp_ends_drag (drag : Drag.t) (camera : CameraPose.t)
  (up move : PointerEvent.t) :
  Drag.pointerId drag = PointerEvent.pointerId up ->
  Drag.active (handlePointerUp drag up) = false
  /\ handlePointerMove (handlePointerUp drag up) camera move
     = (handlePointerUp drag up, camera).
Proof.
  intros Hid. unfold handlePointerUp. rewrite Hid, Z.eqb_refl. cbn.
  split; reflexivity.
Qed.

Lemma handlePointerUp_ends_drag_witness :
  Drag.active (handlePointerUp (Drag.mk true 7 10 20) (PointerEvent.mk 7 30 40)) = false
  /\ handlePointerMove
       (handlePointerUp (Drag.mk true 7 10 20) (PointerEvent.mk 7 30 40))
       (CameraPose.mk 0 1.72 0 0 (-0.35)) (PointerEvent.mk 7 50 60)
     = (handlePointerUp (Drag.mk true 7 10 20) (PointerEvent.mk 7 30 40),
        CameraPose.mk 0 1.72 0 0 (-0.35)).
Proof.
  apply (handlePointerUp_ends_drag (Drag.mk true 7 10 20)
           (CameraPose.mk 0 1.72 0 0 (-0.35))
           (PointerEvent.mk 7 30 40) (PointerEvent.mk 7 50 60)).
  reflexivity.
Defined.

End Pointer.

Section Store.

(** X21: on a seed from 0 up to 2147483646 the new seed of
    [handleRegenerate] is again in that range, the product and the sum it
    computes stay below 2^53 (so they are exact as numbers), and the
    selected index is reset to 0. *)
Theorem handleRegenerate_seed_range (seed selectedIndex : Z) :
  (0 <= seed < 2147483647)%Z ->
  (0 <= fst (handleRegenerate (seed, selectedIndex)) < 2147483647)%Z
  /\ (0 <= seed * 1664525 + 1013904223 < 2 ^ 53)%Z
  /\ snd (handleRegenerate (seed, selectedIndex)) = 0%Z.
Proof.
  intros Hseed. unfold handleRegenerate, nextSeed. cbn [fst snd].
  split; [apply Z.mod_pos_bound; lia |]. split; [lia | reflexivity].
Qed.

Lemma handleRegenerate_seed_range_witness :
  (0 <= fst (handleRegenerate (1337%Z, 5%Z)) < 2147483647)%Z
  /\ (0 <= 1337 * 1664525 + 1013904223 < 2 ^ 53)%Z
  /\ snd (handleRegenerate (1337%Z, 5%Z)) = 0%Z.
Proof.
  apply (handleRegenerate_seed_range 1337 5). lia.
Defined.

(** X22: on a list with at least one tile, [safeSelectedIndex] is always an
    index of the list, whatever the selected index (negative or past the
    end): the tile it selects exists; a selected index of the list is kept. *)
Theorem safeSelectedIndex_valid (selectedIndex : Z) (tile : HexMapTile.t)
  (rest : list HexMapTile.t) :
  let tiles := tile :: rest in
  let safe := safeSelectedIndex selectedIndex tiles in
  (0 <= safe < Z.of_nat (length tiles))%Z
  /\ (exists selected, tiles !! Z.to_nat safe = Some selected)
  /\ ((0 <= selectedIndex < Z.of_nat (length tiles))%Z -> safe = selectedIndex).
Proof.
  cbv zeta. unfold safeSelectedIndex.
  destruct (0 <=? selectedIndex)%Z eqn:Hlo; cbn [andb].
  - destruct (selectedIndex <? Z.of_nat (length (tile :: rest)))%Z eqn:Hhi.
    + apply Z.leb_le in Hlo. apply Z.ltb_lt in Hhi.
      split; [lia |]. split; [| reflexivity].
      apply lookup_lt_is_Some_2. lia.
    + apply Z.ltb_ge in Hhi. cbn [length] in *.
      split; [lia |]. split; [exists tile; reflexivity | lia].
  - apply Z.leb_gt in Hlo. cbn [length].
    split; [lia |]. split; [exists tile; reflexivity | lia].
Qed.

(** X23: in the score store, toggling the pause twice restores the state,
    a toggle touches neither the score nor the level, of two level settings
    the last one wins, and a reset after any action gives the initial
    state. *)
Theorem gameReducer_composes (state : GameState.t) (action : GameAction) (a b : R) :
  gameReducer (gameReducer state TOGGLE_PAUSE) TOGGLE_PAUSE = state
  /\ GameState.score (gameReducer state TOGGLE_PAUSE) = GameState.score state
  /\ GameState.level (gameReducer state TOGGLE_PAUSE) = GameState.level state
  /\ gameReducer (gameReducer state (SET_LEVEL a)) (SET_LEVEL b)
     = gameReducer state (SET_LEVEL b)
  /\ gameReducer (gameReducer state action) RESET_GAME = initialState.
Proof.
  destruct state as [score level paused]. cbn.
  rewrite negb_involutive. repeat split; reflexivity.
Qed.

End Store.

Section Tiling.
Context `{Host} `{SurfaceCover.t} `{TerrainBiome.t}.

(** X26: whatever the terrain, [resolveTileColor] returns ["#"] followed
    by the texts of exactly three channels, one for each channel read from
    the base colour: two lowercase hexadecimal digits for a channel that
    [parseInt] could read, ["NaN"] for one that it could not.  The base
    colour is the entry of [SURFACE_COLORS] for the surface when there is
    one, else the entry of [BIOME_COLORS] for the biome when there is one,
    else ["#8b9eb6"]. *)
Theorem resolveTileColor_format (terrain : TerrainCell.t) :
  let biomeColor :=
    match BIOME_COLORS !! TerrainCell.biome terrain with
    | Some color => color
    | None => "#8b9eb6"%string
    end in
  let base :=
    match TerrainCell.surface terrain with
    | Some surface =>
        match SURFACE_COLORS !! surface with
        | Some color => color
        | None => biomeColor
        end
    | None => biomeColor
    end in
  exists texts,
    resolveTileColor terrain = String "#" (String.concat "" texts)
    /\ length (parsedChannels base) = 3%nat
    /\ Forall2 channelTextOf (parsedChannels base) texts.
Proof.
  cbv zeta.
  eexists. split; [reflexivity |]. split; [apply parsedChannels_three |].
  apply tintChannels_textOf.
Qed.

(** X27: [buildHexMapTiles] makes one tile per cell, in the order of the
    cells, however many terrain records there are: the tile of the cell at
    index [i] has the coordinates of the cell, the position [axialToPixel]
    gives them, the polygon of [hexPolygonPoints] at that position, the
    terrain record at index [i], or flat plains when there is none, and the
    colour of that terrain. *)
Theorem buildHexMapTiles_per_cell (cells : list HexCell.t)
  (terrain : list TerrainCell.t) (size : R) :
  let tiles := buildHexMapTiles cells terrain size in
  length tiles = length cells
  /\ forall (i : nat) (cell : HexCell.t),
       cells !! i = Some cell ->
       exists tile,
         tiles !! i = Some tile
         /\ HexMapTile.q tile = HexCell.q cell
         /\ HexMapTile.r tile = HexCell.r cell
         /\ (HexMapTile.x tile, HexMapTile.y tile)
            = WorldMap.axialToPixel (IZR (HexCell.q cell)) (IZR (HexCell.r cell)) size
         /\ HexMapTile.points tile
            = WorldMap.hexPolygonPoints (HexMapTile.x tile) (HexMapTile.y tile) size
         /\ HexMapTile.terrain tile
            = match terrain !! i with
              | Some record => record
              | None => TerrainCell.mk 0 0 0 TerrainBiome.Plains None None None
              end
         /\ HexMapTile.color tile = resolveTileColor (HexMapTile.terrain tile).
Proof.
  cbv zeta. unfold buildHexMapTiles. split; [apply length_imap |].
  intros i cell Hcell. rewrite list_lookup_imap, Hcell. cbn.
  eexists. split; [reflexivity |]. cbn. repeat split; reflexivity.
Qed.

End Tiling.

Section MapBounds.

Lemma fold_min_finite (f : HexMapTile.t -> R) (tiles : list HexMapTile.t) (a : R) :
  exists m,
    fold_left (fun acc tile => minExtended acc (f tile)) tiles (Finite a) = Finite m
    /\ m <= a
    /\ Forall (fun tile => m <= f tile) tiles
    /\ (m = a \/ exists tile, In tile tiles /\ m = f tile).
Proof.
  revert a. induction tiles as [| tile rest IH]; intros a; cbn [fold_left].
  - exists a. split; [reflexivity |]. split; [lra |]. split; [constructor | left; reflexivity].
  - destruct (IH (JS.min a (f tile))) as (m & Hm & Hle & Hall & Hin).
    pose proof (min_le_l a (f tile)) as Hl. pose proof (min_le_r a (f tile)) as Hr.
    exists m. cbn [minExtended]. split; [exact Hm |]. split; [lra |].
    split; [constructor; [lra | exact Hall] |].
    destruct Hin as [-> | (t & Ht & ->)].
    + unfold JS.min. destruct (Rle_dec a (f tile)); [left; reflexivity |].
      right. exists tile. split; [left; reflexivity | reflexivity].
    + right. exists t. split; [right; exact Ht | reflexivity].
Qed.

Lemma fold_max_finite (f : HexMapTile.t -> R) (tiles : list HexMapTile.t) (a : R) :
  exists m,
    fold_left (fun acc tile => maxExtended acc (f tile)) tiles (Finite a) = Finite m
    /\ a <= m
    /\ Forall (fun tile => f tile <= m) tiles
    /\ (m = a \/ exists tile, In tile tiles /\ m = f tile).
Proof.
  revert a. induction tiles as [| tile rest IH]; intros a; cbn [fold_left].
  - exists a. split; [reflexivity |]. split; [lra |]. split; [constructor | left; reflexivity].
  - destruct (IH (JS.max a (f tile))) as (m & Hm & Hle & Hall & Hin).
    pose proof (max_ge_l a (f tile)) as Hl. pose proof (max_ge_r a (f tile)) as Hr.
    exists m. cbn [maxExtended]. split; [exact Hm |]. split; [lra |].
    split; [constructor; [lra | exact Hall] |].
    destruct Hin as [-> | (t & Ht & ->)].
    + unfold JS.max. destruct (Rle_dec a (f tile)); [| left; reflexivity].
      right. exists tile. split; [left; reflexivity | reflexivity].
    + right. exists t. split; [right; exact Ht | reflexivity].
Qed.

(** The four bounds of the loop of [computeMapBounds] are folds of their
    own. *)
Lemma computeMapBounds_fold (size : R) (tiles : list HexMapTile.t) (bounds : Bounds.t) :
  fold_left (computeMapBoundsStep size) tiles bounds
  = Bounds.mk
      (fold_left (fun acc tile => minExtended acc (HexMapTile.x tile - size)) tiles
                 (Bounds.minX bounds))
      (fold_left (fun acc tile => maxExtended acc (HexMapTile.x tile + size)) tiles
                 (Bounds.maxX bounds))
      (fold_left (fun acc tile => minExtended acc (HexMapTile.y tile - size)) tiles
                 (Bounds.minY bounds))
      (fold_left (fun acc tile => maxExtended acc (HexMapTile.y tile + size)) tiles
                 (Bounds.maxY bounds)).
Proof.
  revert bounds. induction tiles as [| tile rest IH]; intros bounds; cbn [fold_left].
  - destruct bounds; reflexivity.
  - rewrite IH. reflexivity.
Qed.

(** X28: on the empty list [computeMapBounds] is the box from [-size] to
    [size] on both axes.  On a list with at least one tile the four bounds
    are finite; every tile centre, moved by [size] either way on either
    axis, is inside them; and each bound is reached by some tile. *)
Theorem computeMapBounds_encloses (size : R) :
  computeMapBounds [] size
  = Bounds.mk (Finite (- size)) (Finite size) (Finite (- size)) (Finite size)
  /\ forall (tile : HexMapTile.t) (rest : list HexMapTile.t),
       let tiles := tile :: rest in
       exists minX maxX minY maxY : R,
         computeMapBounds tiles size
         = Bounds.mk (Finite minX) (Finite maxX) (Finite minY) (Finite maxY)
         /\ Forall (fun t =>
                      minX <= HexMapTile.x t - size /\ HexMapTile.x t + size <= maxX
                      /\ minY <= HexMapTile.y t - size /\ HexMapTile.y t + size <= maxY)
                   tiles
         /\ (exists t, In t tiles /\ minX = HexMapTile.x t - size)
         /\ (exists t, In t tiles /\ maxX = HexMapTile.x t + size)
         /\ (exists t, In t tiles /\ minY = HexMapTile.y t - size)
         /\ (exists t, In t tiles /\ maxY = HexMapTile.y t + size).
Proof.
  split; [reflexivity |]. intros tile rest tiles.
  unfold computeMapBounds, tiles. cbn [length Nat.eqb fold_left].
  rewrite computeMapBounds_fold. cbn [computeMapBoundsStep Bounds.minX Bounds.maxX
    Bounds.minY Bounds.maxY minExtended maxExtended].
  destruct (fold_min_finite (fun t => HexMapTile.x t - size) rest (HexMapTile.x tile - size))
    as (minX & -> & HminX & HallminX & HinminX).
  destruct (fold_max_finite (fun t => HexMapTile.x t + size) rest (HexMapTile.x tile + size))
    as (maxX & -> & HmaxX & HallmaxX & HinmaxX).
  destruct (fold_min_finite (fun t => HexMapTile.y t - size) rest (HexMapTile.y tile - size))
    as (minY & -> & HminY & HallminY & HinminY).
  destruct (fold_max_finite (fun t => HexMapTile.y t + size) rest (HexMapTile.y tile + size))
    as (maxY & -> & HmaxY & HallmaxY & HinmaxY).
  exists minX, maxX, minY, maxY. split; [reflexivity |]. split.
  - constructor; [repeat split; assumption |].
    rewrite List.Forall_forall in *. intros t Ht.
    specialize (HallminX t Ht). specialize (HallmaxX t Ht).
    specialize (HallminY t Ht). specialize (HallmaxY t Ht).
    cbn beta in *. repeat split; assumption.
  - repeat split.
    + destruct HinminX as [-> | (t & Ht & ->)];
        [exists tile; split; [left |]; reflexivity
        | exists t; split; [right; exact Ht | reflexivity]].
    + destruct HinmaxX as [-> | (t & Ht & ->)];
        [exists tile; split; [left |]; reflexivity
        | exists t; split; [right; exact Ht | reflexivity]].
    + destruct HinminY as [-> | (t & Ht & ->)];
        [exists tile; split; [left |]; reflexivity
        | exists t; split; [right; exact Ht | reflexivity]].
    + destruct HinmaxY as [-> | (t & Ht & ->)];
        [exists tile; split; [left |]; reflexivity
        | exists t; split; [right; exact Ht | reflexivity]].
Qed.

End MapBounds.

Section Queue.
Context `{Host}.

Lemma highlightedCount_app (front back : list DrawItem.t) :
  highlightedCount (front ++ back) = (highlightedCount front + highlightedCount back)%nat.
Proof. unfold highlightedCount. rewrite List.filter_app, length_app. reflexivity. Qed.

Lemma highlightedCount_permutation (l l' : list DrawItem.t) :
  Permutation l l' -> highlightedCount l = highlightedCount l'.
Proof.
  unfold highlightedCount.
  induction 1 as [| a l l' _ IH | a b l | l l' l'' _ IH1 _ IH2]; cbn.
  - reflexivity.
  - destruct (DrawItem.highlighted a); cbn; lia.
  - destruct (DrawItem.highlighted a), (DrawItem.highlighted b); reflexivity.
  - lia.
Qed.

Lemma drawItemOfTile_highlighted (tile : HexMapTile.t) (index : nat)
  (camera : CameraPose.t) (selectedIndex : nat) (width height focalLength : R)
  (item : DrawItem.t) :
  drawItemOfTile tile index camera selectedIndex width height focalLength = Some item ->
  DrawItem.highlighted item = Nat.eqb index selectedIndex.
Proof.
  unfold drawItemOfTile.
  destruct (projectCorners _ _ camera width height focalLength [] 0)
    as [[projectedCorners depthTotal] |]; [| discriminate].
  destruct projectedCorners; [discriminate |].
  intros [= <-]. reflexivity.
Qed.

Lemma buildDrawQueue_counts (tiles : list HexMapTile.t) (index : nat)
  (camera : CameraPose.t) (selectedIndex : nat) (width height focalLength : R)
  (drawQueue : list DrawItem.t) :
  let built :=
    buildDrawQueue tiles index camera selectedIndex width height focalLength drawQueue in
  (length built <= length drawQueue + length tiles)%nat
  /\ (highlightedCount built
      <= highlightedCount drawQueue + (if Nat.leb index selectedIndex then 1 else 0))%nat.
Proof.
  cbv zeta. revert index drawQueue.
  induction tiles as [| tile rest IH]; intros index drawQueue; cbn [buildDrawQueue length].
  - split; lia.
  - destruct (drawItemOfTile tile index camera selectedIndex width height focalLength)
      as [item |] eqn:Hitem.
    + apply drawItemOfTile_highlighted in Hitem.
      destruct (IH (S index) (drawQueue ++ [item])) as [Hlen Hcount].
      rewrite length_app in Hlen. rewrite highlightedCount_app in Hcount.
      cbn [length] in Hlen. split; [lia |].
      unfold highlightedCount at 3 in Hcount. cbn [List.filter] in Hcount.
      rewrite Hitem in Hcount.
      destruct (Nat.eqb index selectedIndex) eqn:Heq.
      * apply Nat.eqb_eq in Heq. subst index.
        replace (Nat.leb (S selectedIndex) selectedIndex) with false in Hcount
          by (symmetry; apply Nat.leb_gt; lia).
        rewrite Nat.leb_refl. cbn [length] in Hcount. lia.
      * apply Nat.eqb_neq in Heq. cbn [length] in Hcount.
        destruct (Nat.leb (S index) selectedIndex) eqn:Hs.
        -- apply Nat.leb_le in Hs.
           replace (Nat.leb index selectedIndex) with true
             by (symmetry; apply Nat.leb_le; lia). lia.
        -- destruct (Nat.leb index selectedIndex); lia.
    + destruct (IH (S index) drawQueue) as [Hlen Hcount]. split; [lia |].
      destruct (Nat.leb (S index) selectedIndex) eqn:Hs.
      * apply Nat.leb_le in Hs.
        replace (Nat.leb index selectedIndex) with true
          by (symmetry; apply Nat.leb_le; lia). lia.
      * destruct (Nat.leb index selectedIndex); lia.
Qed.

Lemma sum_bounds (lo hi : R) (values : list R) :
  Forall (fun v => lo < v < hi) values ->
  INR (length values) * lo <= fold_right Rplus 0 values <= INR (length values) * hi.
Proof.
  induction 1 as [| v rest Hv _ IH]; [cbn; lra |].
  cbn [fold_right]. change (length (v :: rest)) with (S (length rest)).
  rewrite S_INR. lra.
Qed.

Lemma mean_bounds (lo hi : R) (values : list R) :
  values <> [] -> Forall (fun v => lo < v < hi) values -> lo < mean values < hi.
Proof.
  intros Hne Hall. destruct values as [| v rest]; [contradiction |].
  inversion Hall as [| ? ? Hv Hrest]; subst.
  pose proof (sum_bounds lo hi rest Hrest) as Hsum.
  unfold mean. cbn [fold_right]. change (length (v :: rest)) with (S (length rest)).
  rewrite S_INR. pose proof (pos_INR (length rest)) as Hn.
  set (n := INR (length rest)) in *.
  assert (Hpos : 0 < n + 1) by lra.
  split.
  - apply Rmult_lt_reg_r with (n + 1); [exact Hpos |].
    unfold Rdiv. rewrite Rmult_assoc, Rinv_l by lra. lra.
  - apply Rmult_lt_reg_r with (n + 1); [exact Hpos |].
    unfold Rdiv. rewrite Rmult_assoc, Rinv_l by lra. lra.
Qed.

(** X29: a frame draws at most one polygon per tile and highlights at most
    one of them, whatever the selected index. *)
Theorem sortedDrawQueue_at_most_one_highlight (canvas : Canvas.t)
  (tiles : list HexMapTile.t) (camera : CameraPose.t) (selectedIndex : nat) :
  let queue := sortedDrawQueue canvas tiles camera selectedIndex in
  (length queue <= length tiles)%nat /\ (highlightedCount queue <= 1)%nat.
Proof.
  cbv zeta. unfold sortedDrawQueue. cbv zeta.
  match goal with
  | |- context [JS.sort ?c ?l] => pose proof (sort_permutation c l) as Hperm
  end.
  rewrite <- (Permutation_length Hperm), <- (highlightedCount_permutation _ _ Hperm).
  match type of Hperm with
  | Permutation (buildDrawQueue _ _ _ _ ?w ?h ?f _) _ =>
      destruct (buildDrawQueue_counts tiles 0 camera selectedIndex w h f []) as [Hlen Hcount]
  end.
  cbn in Hlen, Hcount. split; lia.
Qed.

(** X30: the depth of every item of the draw queue lies strictly between
    [NEAR_PLANE] and [FAR_PLANE]. *)
Theorem sortedDrawQueue_depth_range (canvas : Canvas.t) (tiles : list HexMapTile.t)
  (camera : CameraPose.t) (selectedIndex : nat) :
  Forall (fun item => NEAR_PLANE < DrawItem.depth item < FAR_PLANE)
         (sortedDrawQueue canvas tiles camera selectedIndex).
Proof.
  apply List.Forall_forall. intros item Hin.
  unfold sortedDrawQueue in Hin. cbv zeta in Hin.
  match type of Hin with
  | In _ (JS.sort ?c ?l) => pose proof (sort_permutation c l) as Hperm
  end.
  apply Permutation_sym in Hperm. apply (Permutation_in _ Hperm) in Hin.
  apply buildDrawQueue_items in Hin.
  destruct Hin as [[] | (tile & _ & projectedCorners & Hall & ->)].
  apply mean_bounds.
  - apply Forall2_length in Hall. destruct projectedCorners; [discriminate | discriminate].
  - clear -Hall. induction Hall as [| corner projected ? ? Hp _ IH]; cbn; [constructor |].
    constructor; [| exact IH].
    apply projectPoint_depth in Hp. apply Hp.
Qed.

End Queue.
